(** * hypatia-engine: movement resolver, NPC activation, tiles, frame loop

    A shallow embedding of [hypatia/player.py], [hypatia/tile.py] and the
    scene handling of [hypatia/game.py].

    Numbers.  Python [int] is [Z].  The first model of [HumanPlayer.move]
    idealises the remaining numbers: floats (the sub-pixel position, the
    velocity, the elapsed time) are exact rationals [Q], and rectangle
    coordinates are unbounded integers; [int(x)] and the coordinate
    conversion of [pygame.Rect] truncate toward zero.  It carries the
    properties that compute no coordinate or hold of it just as well in
    float arithmetic.  The module [Machine] repeats [move] on binary64
    floats and the C [int] fields of [pygame.Rect]; the properties that say
    which rectangle is tested, which step is committed or where the actor
    ends are stated on it. *)

From Stdlib Require Import PrimFloat SpecFloat FloatOps.
From Stdlib Require Import String ZArith QArith Qround List Bool Lia Lqa.
Import ListNotations.

Open Scope Z_scope.

(** ** pygame.Rect *)

Module Rect.

Record t : Type := mk { x : Z; y : Z; w : Z; h : Z }.

Definition right (r : t) : Z := x r + w r.
Definition bottom (r : t) : Z := y r + h r.

(** [Rect.union]: the smallest rectangle covering both arguments. *)
Definition union (a b : t) : t :=
  let ux := Z.min (x a) (x b) in
  let uy := Z.min (y a) (y b) in
  mk ux uy
     (Z.max (x a + w a) (x b + w b) - ux)
     (Z.max (y a + h a) (y b + h b) - uy).

(** [Rect.colliderect]: zero-sized rectangles collide with nothing,
    otherwise the open extents must overlap on both axes. *)
Definition colliderect (a b : t) : bool :=
  if (w a =? 0) || (h a =? 0) || (w b =? 0) || (h b =? 0) then false
  else (Z.min (x a) (x a + w a) <? Z.max (x b) (x b + w b))
    && (Z.min (y a) (y a + h a) <? Z.max (y b) (y b + h b))
    && (Z.max (x a) (x a + w a) >? Z.min (x b) (x b + w b))
    && (Z.max (y a) (y a + h a) >? Z.min (y b) (y b + h b)).

End Rect.

(** [int(q)] for a float [q]: truncation toward zero. *)
Definition py_int (q : Q) : Z := Z.quot (Qnum q) (Zpos (Qden q)).

(** [pygame.Rect((left, top), (width, height))] with float coordinates. *)
Definition pygame_Rect (topleft : Q * Q) (size : Z * Z) : Rect.t :=
  Rect.mk (py_int (fst topleft)) (py_int (snd topleft)) (fst size) (snd size).

(** [range(start, 0, -1)], by recursion on the number of elements. *)
Fixpoint countdown (n : nat) : list Z :=
  match n with
  | O => []
  | S m => Z.of_nat (S m) :: countdown m
  end.

Definition range_down (start : Z) : list Z := countdown (Z.to_nat start).

(** ** hypatia.constants *)

Inductive Direction : Type := north | east | south | west.
Inductive Action : Type := stand | walk.

(** ** The actor data touched by [HumanPlayer.move] *)

Record Velocity : Type := mkVelocity { vx : Q; vy : Q }.

Record Walkabout : Type := mkWalkabout {
  direction : Direction;
  action : Action;
  topleft_float : Q * Q;
  size : Z * Z;
  rect : Rect.t
}.

Record HumanPlayer : Type := mkHumanPlayer {
  walkabout : Walkabout;
  velocity : Velocity
}.

(** [game.screen.time_elapsed_milliseconds] and [game.scene.collide_check]:
    what [move] reads from its [game] argument. *)
Record Game : Type := mkGame {
  time_elapsed_milliseconds : Q;
  collide_check : Rect.t -> bool
}.

Definition set_direction (d : Direction) (wa : Walkabout) : Walkabout :=
  mkWalkabout d (action wa) (topleft_float wa) (size wa) (rect wa).

Definition set_action (a : Action) (wa : Walkabout) : Walkabout :=
  mkWalkabout (direction wa) a (topleft_float wa) (size wa) (rect wa).

(** One pass of the loop body, as observed from outside: the candidate
    step, the speed factor it was multiplied by, the destination rectangle
    and the rectangle handed to [collide_check]. *)
Record Probe : Type := mkProbe {
  p_pixels : Z;
  p_speed : Q;
  p_destination : Rect.t;
  p_query : Rect.t
}.

Section Move.

(** [walkabout.current_animation().largest_frame_size()]; the animation
    classes live outside this module, so the call is a parameter that may
    depend on the whole walkabout state at the time of the call. *)
Variable largest_frame_size : Walkabout -> Z * Z.

Definition planned_movement_in_pixels (self : HumanPlayer) (d : Direction)
  : Q :=
  match d with
  | north | south => vy (velocity self)
  | east | west => vx (velocity self)
  end.

Definition iter_pixels (self : HumanPlayer) (d : Direction) : Z :=
  Z.max 1 (py_int (planned_movement_in_pixels self d)).

(** The [if pixels == 2: adj_speed = 1] assignment; the variable is the
    loop-carried one, so the new value stays for later iterations. *)
Definition clamp_speed (pixels : Z) (adj_speed : Q) : Q :=
  if pixels =? 2 then 1%Q else adj_speed.

Definition new_topleft (d : Direction) (topleft : Q * Q)
           (pixels : Z) (adj_speed : Q) : Q * Q :=
  let '(tx, ty) := topleft in
  let step := (inject_Z pixels * adj_speed)%Q in
  match d with
  | north => (tx, (ty - step)%Q)
  | east => ((tx + step)%Q, ty)
  | south => (tx, (ty + step)%Q)
  | west => ((tx - step)%Q, ty)
  end.

(** The [for pixels in range(iter_pixels, 0, -1)] loop.  [Some wa'] is the
    [return True] inside the loop, [None] is falling out of it. *)
Fixpoint move_loop (game : Game) (d : Direction) (wa : Walkabout)
         (adj_speed : Q) (candidates : list Z)
  : option Walkabout * list Probe :=
  match candidates with
  | [] => (None, [])
  | pixels :: rest =>
      let adj_speed := clamp_speed pixels adj_speed in
      let topleft' := new_topleft d (topleft_float wa) pixels adj_speed in
      let destination_rect := pygame_Rect topleft' (size wa) in
      let collision_rect := Rect.union (rect wa) destination_rect in
      let probe := mkProbe pixels adj_speed destination_rect collision_rect in
      if negb (collide_check game collision_rect) then
        let wa1 := set_action walk wa in
        let wa2 := mkWalkabout (direction wa1) (action wa1) topleft'
                               (largest_frame_size wa1) destination_rect in
        (Some wa2, [probe])
      else
        let '(res, probes) := move_loop game d wa adj_speed rest in
        (res, probe :: probes)
  end.

(** [HumanPlayer.move(game, direction)]: the returned boolean, the player
    afterwards, and the probes made on the way. *)
Definition move_trace (self : HumanPlayer) (game : Game) (d : Direction)
  : bool * HumanPlayer * list Probe :=
  let wa := set_direction d (walkabout self) in
  let self1 := mkHumanPlayer wa (velocity self) in
  let adj_speed := (time_elapsed_milliseconds game / 1000)%Q in
  match move_loop game d wa adj_speed (range_down (iter_pixels self1 d)) with
  | (Some wa', probes) => (true, mkHumanPlayer wa' (velocity self), probes)
  | (None, probes) =>
      (false, mkHumanPlayer (set_action stand wa) (velocity self), probes)
  end.

Definition move (self : HumanPlayer) (game : Game) (d : Direction)
  : bool * HumanPlayer :=
  fst (move_trace self game d).

End Move.

(** ** NPC activation *)

(** The Python values that can be assigned to [NPC.active]. *)
Inductive PyValue : Type :=
| PyBool (b : bool)
| PyInt (n : Z)
| PyFloat (q : Q)
| PyNone.

(** [v is True] and [v is False]: identity with the two bool singletons,
    so [1] and [0] are neither. *)
Definition is_True (v : PyValue) : bool :=
  match v with PyBool true => true | _ => false end.

Definition is_False (v : PyValue) : bool :=
  match v with PyBool false => true | _ => false end.

Inductive Exn : Type := ValueError | TypeError | AttributeError | KeyError.

Inductive Hook : Type := OnActivation | OnDeactivation.

Module NPC.

(** An NPC of some concrete kind: the [_active] slot, the fields [ext]
    that a subclass adds, and a log of the hook methods invoked so far
    (oldest first). *)
Record t (E : Type) : Type := mk {
  _active : PyValue;
  ext : E;
  hook_calls : list Hook
}.
Arguments mk {E}.
Arguments _active {E}.
Arguments ext {E}.
Arguments hook_calls {E}.

(** Statements of a method: they update the object and either finish
    with a value or raise; what was stored before a raise stays stored. *)
Definition M (E A : Type) : Type := t E -> t E * (A + Exn).

Definition ret {E A} (a : A) : M E A := fun s => (s, inl a).
Definition raise {E A} (e : Exn) : M E A := fun s => (s, inr e).
Definition bind {E A B} (m : M E A) (k : A -> M E B) : M E B :=
  fun s =>
    match m s with
    | (s', inl a) => k a s'
    | (s', inr e) => (s', inr e)
    end.

Notation "m ;; k" := (bind m (fun _ => k))
  (at level 61, right associativity).

Section Methods.

Context {E : Type}.

(** The bodies of [on_activation] and [on_deactivation] of the concrete
    class, acting on the subclass fields. *)
Variable activation_body : E -> E.
Variable deactivation_body : E -> E.

(** [NPC.__init__] *)
Definition init (e : E) : t E := mk (PyBool false) e [].

Definition store_active (status : PyValue) : M E unit :=
  fun s => (mk status (ext s) (hook_calls s), inl tt).

Definition on_activation : M E unit :=
  fun s => (mk (_active s) (activation_body (ext s))
               (hook_calls s ++ [OnActivation]), inl tt).

Definition on_deactivation : M E unit :=
  fun s => (mk (_active s) (deactivation_body (ext s))
               (hook_calls s ++ [OnDeactivation]), inl tt).

(** The [active] property: getter, setter and deleter. *)
Definition active (s : t E) : PyValue := _active s.

Definition set_active (status : PyValue) : M E unit :=
  store_active status ;;
  if is_True status then on_activation
  else if is_False status then on_deactivation
  else raise ValueError.

Definition del_active : M E unit := raise TypeError.

(** How often a hook occurs in a log. *)
Definition hook_eqb (a b : Hook) : bool :=
  match a, b with
  | OnActivation, OnActivation | OnDeactivation, OnDeactivation => true
  | _, _ => false
  end.

Definition invocations (hk : Hook) (s : t E) : nat :=
  length (filter (hook_eqb hk) (hook_calls s)).

(** [NPC.__str__] *)
Definition __str__ (s : t E) : string :=
  if is_True (active s) then "<Active NPC>"%string
  else "<Inactive NPC>"%string.

(** The statements [npc.active = v1; npc.active = v2; ...] in a row: the
    first assignment that raises ends the sequence. *)
Fixpoint assign_each (statuses : list PyValue) : M E unit :=
  match statuses with
  | [] => ret tt
  | status :: rest => set_active status ;; assign_each rest
  end.

(** The hook that the assignment of a boolean invokes. *)
Definition hook_of (b : bool) : Hook :=
  if b then OnActivation else OnDeactivation.

End Methods.

End NPC.

(** The [Door] of the class docstring: a lock that follows activation. *)
Module Door.
Definition activation_body (locked : bool) : bool := true.
Definition deactivation_body (locked : bool) : bool := false.
Definition init : NPC.t bool := NPC.init false.
Definition set_active : PyValue -> NPC.M bool unit :=
  NPC.set_active activation_body deactivation_body.
End Door.

(** ** Tiles *)

Module TileFlags.
Definition NONE : Z := 0.
Definition SOLID : Z := 1.
Definition DESTRUCTIBLE : Z := 2.
Definition ANIMATED : Z := 4.

(** [flag in flags] on an [IntFlag]: every bit of [flag] is set. *)
Definition contains (flags flag : Z) : bool := Z.land flag flags =? flag.

(** The members of the enumeration in definition order, as [for flag in
    cls] visits them, each with its name. *)
Definition members : list (string * Z) :=
  [("NONE"%string, NONE); ("SOLID"%string, SOLID);
   ("DESTRUCTIBLE"%string, DESTRUCTIBLE); ("ANIMATED"%string, ANIMATED)].

(** The loop of [flags_to_str_array]: [NONE] is skipped, the name of any
    other member contained in [flags] is appended. *)
Fixpoint names_of (ms : list (string * Z)) (flags : Z) : list string :=
  match ms with
  | [] => []
  | (name, flag) :: rest =>
      if flag =? NONE then names_of rest flags
      else if contains flags flag then name :: names_of rest flags
      else names_of rest flags
  end.

(** [TileFlags.flags_to_str_array(flags)] *)
Definition flags_to_str_array (flags : Z) : list string :=
  names_of members flags.
End TileFlags.

(** The collaborators of [Tile]: pygame surfaces, the tilesheet, and the
    [Frame] and [AnimatedSprite] classes fetched through [class_get]. *)
Class Collaborators : Type := {
  Surface : Type;
  pygame_Surface : Z * Z -> Surface;
  get_rect : Surface -> Rect.t;
  Tilesheet : Type;
  tile_width : Tilesheet -> Z;
  tile_height : Tilesheet -> Z;
  get_tile_subsurface : Tilesheet -> Z -> Surface;
  FrameT : Type;
  Frame : Surface -> Q -> Q -> FrameT;
  AnimatedSprite : Type;
  new_AnimatedSprite : list FrameT -> AnimatedSprite;
  sprite_update : AnimatedSprite -> Q -> AnimatedSprite;
  sprite_image : AnimatedSprite -> Surface
}.

Section Tiles.

Context {env : Collaborators}.

(** [animatedsprite] is an attribute that exists only on tiles built
    with the ANIMATED flag; [tile_metadata] keeps the ["animation"] entry
    of the metadata dict when there is one. *)
Record Tile : Type := mkTile {
  tilesheet : Tilesheet;
  tile_id : Z;
  tile_flags : Z;
  tile_metadata : option (list (Z * Q));
  image : Surface;
  tile_rect : Rect.t;
  animatedsprite : option AnimatedSprite
}.

Definition is_solid (self : Tile) : bool :=
  TileFlags.contains (tile_flags self) TileFlags.SOLID.

Definition is_destructible (self : Tile) : bool :=
  TileFlags.contains (tile_flags self) TileFlags.DESTRUCTIBLE.

Definition is_animated (self : Tile) : bool :=
  TileFlags.contains (tile_flags self) TileFlags.ANIMATED.

(** The frame-building loop of [Tile.__init__]: each frame starts where
    the previous ones end. *)
Fixpoint build_frames (ts : Tilesheet) (duration : Q)
         (animation : list (Z * Q)) : list FrameT :=
  match animation with
  | [] => []
  | (tileid, tileduration) :: rest =>
      Frame (get_tile_subsurface ts tileid) duration tileduration
      :: build_frames ts (duration + tileduration)%Q rest
  end.

(** [Tile.__init__] *)
Definition new_Tile (ts : Tilesheet) (id flags : Z)
           (metadata : option (list (Z * Q))) : Tile + Exn :=
  let img := pygame_Surface (tile_width ts, tile_height ts) in
  let self := mkTile ts id flags metadata img (get_rect img) None in
  if is_animated self then
    match metadata with
    | None => inr KeyError
    | Some animation =>
        inl (mkTile ts id flags metadata img (get_rect img)
                    (Some (new_AnimatedSprite (build_frames ts 0 animation))))
    end
  else inl self.

(** The two assignments [self.image = img; self.rect = img.get_rect()],
    with the sprite as it stands after the branch. *)
Definition with_image (self : Tile) (img : Surface)
           (sprite : option AnimatedSprite) : Tile :=
  mkTile (tilesheet self) (tile_id self) (tile_flags self)
         (tile_metadata self) img (get_rect img) sprite.

(** [Tile.update(timedelta)] *)
Definition update (self : Tile) (timedelta : Q) : Tile + Exn :=
  if negb (tile_id self =? -1) then
    if is_animated self then
      match animatedsprite self with
      | None => inr AttributeError
      | Some sprite =>
          let sprite' := sprite_update sprite timedelta in
          inl (with_image self (sprite_image sprite') (Some sprite'))
      end
    else
      inl (with_image self
             (get_tile_subsurface (tilesheet self) (tile_id self))
             (animatedsprite self))
  else inl self.

(** [update] called once per frame with the given deltas; the first call
    that raises ends the sequence. *)
Fixpoint update_each (self : Tile) (deltas : list Q) : Tile + Exn :=
  match deltas with
  | [] => inl self
  | timedelta :: rest =>
      match update self timedelta with
      | inl self' => update_each self' rest
      | inr e => inr e
      end
  end.

(** What the constructor establishes and [update] maintains: an animated
    tile has its sprite, and the bounding box is the one of the image. *)
Definition well_formed (self : Tile) : Prop :=
  (is_animated self = true -> animatedsprite self <> None)
  /\ tile_rect self = get_rect (image self).

End Tiles.

(** A toy set of collaborators: a surface is the tile id it shows, a sprite
    is its frame ids with the time accumulated so far, and the sprite shows
    its first frame. *)
Definition toy_env : Collaborators := {|
  Surface := Z;
  pygame_Surface := fun _ => -1;
  get_rect := fun _ => Rect.mk 0 0 32 32;
  Tilesheet := unit;
  tile_width := fun _ => 32;
  tile_height := fun _ => 32;
  get_tile_subsurface := fun _ id => id;
  FrameT := Z * Q * Q;
  Frame := fun img start duration => (img, start, duration);
  AnimatedSprite := list (Z * Q * Q) * Q;
  new_AnimatedSprite := fun frames => (frames, 0%Q);
  sprite_update := fun sprite dt => (fst sprite, (snd sprite + dt)%Q);
  sprite_image := fun sprite =>
    match fst sprite with
    | [] => -1
    | (img, _, _) :: _ => img
    end
|}.

(** Sample tiles over the toy collaborators: a blank solid tile, a static
    tile, and a two-frame animated tile as the constructor builds it. *)
Module Tiles.

Definition blank_wall : @Tile toy_env :=
  @mkTile toy_env tt (-1) TileFlags.SOLID None (-1) (Rect.mk 0 0 32 32) None.

Definition grass : @Tile toy_env :=
  @mkTile toy_env tt 3 TileFlags.NONE None (-1) (Rect.mk 0 0 32 32) None.

Definition water_sprite : @AnimatedSprite toy_env :=
  ([(7, 0%Q, 100%Q); (8, 100%Q, 100%Q)], 0%Q).

Definition water : @Tile toy_env :=
  @mkTile toy_env tt 7 TileFlags.ANIMATED (Some [(7, 100%Q); (8, 100%Q)]) (-1)
         (Rect.mk 0 0 32 32) (Some water_sprite).

End Tiles.

(** ** Collision grid *)

(** Modelled from the spec: [scene.collide_check] is not part of these
    modules; the spec gives it as the test "does rectangle R intersect any
    tile with the SOLID flag".  A grid is the list of placed tiles, each
    with its bounding box on the map and its flag set. *)
Definition grid_collide_check (grid : list (Rect.t * Z)) (r : Rect.t) : bool :=
  existsb (fun cell => TileFlags.contains (snd cell) TileFlags.SOLID
                       && Rect.colliderect r (fst cell)) grid.

(** ** The scene stack and the frame loop of [Game] *)

Module GameLoop.

Section Scenes.

(** Scenes and events are objects of other modules; [Err] stands for the
    exceptions (instances of [Exception]) that scene code can raise, among
    them the [IndexError] of indexing or popping an empty list.  A scene's
    [update] and [handle_event] hold a reference to the game and may change
    it; a scene constructor reads the game. *)
Variable Scene : Type.
Variable Event : Type.
Variable Err : Type.
Variable IndexError : Err.

(** The fields of [Game] that the scene handling reads and writes. *)
Record t : Type := mk { running : bool; scene_stack : list Scene }.

Variable is_TracebackScene : Scene -> bool.
Variable TracebackScene : t -> Err -> Scene.
Variable scene_update : Scene -> t -> t * option Err.
Variable scene_handle_event : Scene -> Event -> t -> t * option Err.
Variable is_QUIT : Event -> bool.

(** [self.scene_stack[-1]]; [None] is the [IndexError] of an empty list. *)
Definition current (g : t) : option Scene := hd_error (rev (scene_stack g)).

(** [Game.scene_push(scenecls, ...)] *)
Definition scene_push (scenecls : t -> Scene) (g : t) : t :=
  mk (running g) (scene_stack g ++ [scenecls g]).

(** [Game.scene_pop()] *)
Definition scene_pop (g : t) : t * option Err :=
  match scene_stack g with
  | [] => (g, Some IndexError)
  | _ :: _ => (mk (running g) (removelast (scene_stack g)), None)
  end.

(** [Game.scene_replace(scenecls, ...)] *)
Definition scene_replace (scenecls : t -> Scene) (g : t) : t :=
  scene_push scenecls (mk (running g) []).

(** How the "update current scene" block of [Game.run] leaves: on to the
    rest of the frame, [continue] to the next frame, or an exception that
    leaves [run]. *)
Inductive Outcome : Type :=
| Proceed (g : t)
| NextFrame (g : t)
| Abort (g : t) (ex : Err).

(** The [except Exception as ex] clause shared by both [try] blocks;
    [None] is the [raise]. *)
Definition on_exception (g : t) (ex : Err) : t * option Err :=
  match current g with
  | None => (g, Some IndexError)
  | Some top =>
      if is_TracebackScene top then (g, Some ex)
      else (scene_push (fun g' => TracebackScene g' ex) g, None)
  end.

(** The block "update current scene" of [Game.run]. *)
Definition update_current_scene (g : t) : Outcome :=
  let '(g1, raised) :=
    match current g with
    | None => (g, Some IndexError)
    | Some scene => scene_update scene g
    end in
  match raised with
  | None => Proceed g1
  | Some ex =>
      match on_exception g1 ex with
      | (g2, None) => NextFrame g2
      | (g2, Some ex') => Abort g2 ex'
      end
  end.

(** The block "handle events" of [Game.run], over the events that
    [pygame.event.get()] returned. *)
Fixpoint handle_events (events : list Event) (g : t) : t * option Err :=
  match events with
  | [] => (g, None)
  | ev :: rest =>
      let g0 := if is_QUIT ev then mk false (scene_stack g) else g in
      let '(g1, raised) :=
        match current g0 with
        | None => (g0, Some IndexError)
        | Some scene => scene_handle_event scene ev g0
        end in
      match raised with
      | None => handle_events rest g1
      | Some ex =>
          match on_exception g1 ex with
          | (g2, None) => handle_events rest g2
          | (g2, Some ex') => (g2, Some ex')
          end
      end
  end.

End Scenes.

(** The frame-rate limit handed to [clock.tick]; the argument is the
    ['fpslimit'] entry of the display configuration, if there is one. *)
Definition fpslimit (configured : option Q) : Q :=
  match configured with
  | Some limit => if Qlt_le_dec 0 limit then limit else 60
  | None => 60
  end.

End GameLoop.

(** Toy scenes for the game loop: a map scene that works, one whose
    [update] and [handle_event] raise, and the traceback scene; exceptions
    are numbers (0 for [IndexError]) and an event is [true] when it is QUIT. *)
Module ToyScenes.

Inductive scene : Type := tilemap | faulty | traceback (ex : nat).

Definition is_TracebackScene (s : scene) : bool :=
  match s with traceback _ => true | _ => false end.

Definition TracebackScene (_ : GameLoop.t scene) (ex : nat) : scene :=
  traceback ex.

Definition scene_update (s : scene) (g : GameLoop.t scene)
  : GameLoop.t scene * option nat :=
  match s with
  | faulty => (g, Some 7%nat)
  | _ => (g, None)
  end.

Definition scene_handle_event (s : scene) (_ : bool) (g : GameLoop.t scene)
  : GameLoop.t scene * option nat :=
  scene_update s g.

Definition is_QUIT (ev : bool) : bool := ev.

Definition playing : GameLoop.t scene := GameLoop.mk scene true [tilemap].
Definition failing : GameLoop.t scene :=
  GameLoop.mk scene true [tilemap; faulty].

End ToyScenes.

(** ** The frame loop with everything that can be raised

    [GameLoop] above takes the exceptions of scene code to be instances of
    [Exception] and the construction of the traceback scene to succeed.
    Here a raised value may also be one that [except Exception] does not
    catch ([SystemExit], [KeyboardInterrupt]), and [TracebackScene(...)],
    which runs inside the [except] clause, may raise. *)

Module GameRun.

Section Scenes.

Variable Scene : Type.
Variable Event : Type.
Variable Err : Type.
Variable IndexError : Err.

(** [isinstance(ex, Exception)] *)
Variable is_Exception : Err -> bool.
Variable is_TracebackScene : Scene -> bool.

(** [TracebackScene(game, ex, tb)]: the scene, or what its constructor
    raised. *)
Variable TracebackScene : GameLoop.t Scene -> Err -> Scene + Err.
Variable scene_update :
  Scene -> GameLoop.t Scene -> GameLoop.t Scene * option Err.
Variable scene_handle_event :
  Scene -> Event -> GameLoop.t Scene -> GameLoop.t Scene * option Err.
Variable is_QUIT : Event -> bool.

(** [Game.scene_push(scenecls, ...)] with a constructor that may raise:
    nothing is appended then. *)
Definition scene_push (scenecls : GameLoop.t Scene -> Scene + Err)
           (g : GameLoop.t Scene) : GameLoop.t Scene * option Err :=
  match scenecls g with
  | inl scene =>
      (GameLoop.mk Scene (GameLoop.running Scene g)
                   (GameLoop.scene_stack Scene g ++ [scene]), None)
  | inr ex => (g, Some ex)
  end.

(** What becomes of a value raised inside one of the two [try] blocks:
    [None] when the [except] clause handled it. *)
Definition on_raise (g : GameLoop.t Scene) (ex : Err)
  : GameLoop.t Scene * option Err :=
  if is_Exception ex then
    match GameLoop.current Scene g with
    | None => (g, Some IndexError)
    | Some top =>
        if is_TracebackScene top then (g, Some ex)
        else scene_push (fun g' => TracebackScene g' ex) g
    end
  else (g, Some ex).

(** The block "update current scene" of [Game.run]. *)
Definition update_current_scene (g : GameLoop.t Scene)
  : GameLoop.Outcome Scene Err :=
  let '(g1, raised) :=
    match GameLoop.current Scene g with
    | None => (g, Some IndexError)
    | Some scene => scene_update scene g
    end in
  match raised with
  | None => GameLoop.Proceed Scene Err g1
  | Some ex =>
      match on_raise g1 ex with
      | (g2, None) => GameLoop.NextFrame Scene Err g2
      | (g2, Some ex') => GameLoop.Abort Scene Err g2 ex'
      end
  end.

(** The block "handle events" of [Game.run]. *)
Fixpoint handle_events (events : list Event) (g : GameLoop.t Scene)
  : GameLoop.t Scene * option Err :=
  match events with
  | [] => (g, None)
  | ev :: rest =>
      let g0 := if is_QUIT ev
                then GameLoop.mk Scene false (GameLoop.scene_stack Scene g)
                else g in
      let '(g1, raised) :=
        match GameLoop.current Scene g0 with
        | None => (g0, Some IndexError)
        | Some scene => scene_handle_event scene ev g0
        end in
      match raised with
      | None => handle_events rest g1
      | Some ex =>
          match on_raise g1 ex with
          | (g2, None) => handle_events rest g2
          | (g2, Some ex') => (g2, Some ex')
          end
      end
  end.

(** Why a raised value [ex] can leave a [try] block of [run], with the
    game then in state [g]: it is no instance of [Exception]; or no scene
    is stacked, which gives [IndexError]; or the current scene is a
    traceback scene; or the constructor of the traceback scene raised it. *)
Definition escapes (g : GameLoop.t Scene) (ex : Err) : Prop :=
  is_Exception ex = false
  \/ (GameLoop.current Scene g = None /\ ex = IndexError)
  \/ (exists top, GameLoop.current Scene g = Some top
                   /\ is_TracebackScene top = true)
  \/ (exists top caught,
        GameLoop.current Scene g = Some top
        /\ is_TracebackScene top = false
        /\ is_Exception caught = true
        /\ TracebackScene g caught = inr ex).

End Scenes.

(** Toy scenes: exceptions are numbers, 0 for [IndexError] and 99 for
    [SystemExit], the one value that is no [Exception]; [quitting] raises
    it, [faulty] raises 7, and no traceback scene can be built for 13. *)
Module Toy.

Inductive scene : Type := tilemap | faulty | quitting | traceback (ex : nat).

Definition is_Exception (ex : nat) : bool := negb (Nat.eqb ex 99).

Definition is_TracebackScene (s : scene) : bool :=
  match s with traceback _ => true | _ => false end.

Definition TracebackScene (_ : GameLoop.t scene) (ex : nat) : scene + nat :=
  if Nat.eqb ex 13 then inr 5%nat else inl (traceback ex).

Definition scene_update (s : scene) (g : GameLoop.t scene)
  : GameLoop.t scene * option nat :=
  match s with
  | faulty => (g, Some 7%nat)
  | quitting => (g, Some 99%nat)
  | _ => (g, None)
  end.

Definition scene_handle_event (s : scene) (_ : bool) (g : GameLoop.t scene)
  : GameLoop.t scene * option nat :=
  scene_update s g.

Definition is_QUIT (ev : bool) : bool := ev.

Definition failing : GameLoop.t scene :=
  GameLoop.mk scene true [tilemap; faulty].
Definition leaving : GameLoop.t scene :=
  GameLoop.mk scene true [tilemap; quitting].

End Toy.

End GameRun.

(** ** Vocabulary of the movement properties *)

(** The probes of a call, and the candidate steps among them. *)
Definition probes (lfs : Walkabout -> Z * Z) (self : HumanPlayer)
           (game : Game) (d : Direction) : list Probe :=
  snd (move_trace lfs self game d).

Definition tried (lfs : Walkabout -> Z * Z) (self : HumanPlayer)
           (game : Game) (d : Direction) : list Z :=
  map p_pixels (probes lfs self game d).

(** The loop as [move] enters it: direction recorded, speed factor taken
    from the elapsed time, candidates counting down from [iter_pixels]. *)
Definition loop_run (lfs : Walkabout -> Z * Z) (self : HumanPlayer)
           (game : Game) (d : Direction) : option Walkabout * list Probe :=
  move_loop lfs game d (set_direction d (walkabout self))
            (time_elapsed_milliseconds game / 1000)%Q
            (range_down (iter_pixels self d)).


(** The speed factor seen by the probe [p] of a countdown from [n] that
    entered the loop with factor [a]. *)
Definition speed_rule (n : Z) (a : Q) (p : Probe) : Prop :=
  (2 < p_pixels p -> p_speed p = a)
  /\ (p_pixels p = 2 -> p_speed p = 1%Q)
  /\ (p_pixels p = 1 -> p_speed p = if 2 <=? n then 1%Q else a).

(** The reading under which only the candidate 2 is clamped: every probe
    uses the elapsed-time factor unless its candidate is 2. *)
Definition clamp_only_at_two (game : Game) (ps : list Probe) : Prop :=
  forall p, In p ps ->
    (p_speed p ==
       if p_pixels p =? 2 then 1
       else time_elapsed_milliseconds game / 1000)%Q.

Definition positive_rect (r : Rect.t) : Prop := 0 < Rect.w r /\ 0 < Rect.h r.

(** [tile] lies between [start] and [dest] along the axis of [d] ... *)
Definition between_on_axis (d : Direction) (start dest tile : Rect.t) : Prop :=
  match d with
  | east => Rect.right start <= Rect.x tile /\ Rect.right tile <= Rect.x dest
  | west => Rect.right dest <= Rect.x tile /\ Rect.right tile <= Rect.x start
  | south => Rect.bottom start <= Rect.y tile /\ Rect.bottom tile <= Rect.y dest
  | north => Rect.bottom dest <= Rect.y tile /\ Rect.bottom tile <= Rect.y start
  end.

(** ... and in the lane swept by [start]: their extents across the axis
    overlap. *)
Definition in_lane (d : Direction) (start tile : Rect.t) : Prop :=
  match d with
  | east | west =>
      Rect.y tile < Rect.bottom start /\ Rect.y start < Rect.bottom tile
  | north | south =>
      Rect.x tile < Rect.right start /\ Rect.x start < Rect.right tile
  end.

(** The speed factor in force when the candidate [k] of a call is tried,
    and the rectangle then handed to [collide_check]. *)
Definition candidate_speed (self : HumanPlayer) (game : Game)
           (d : Direction) (k : Z) : Q :=
  if (k =? 2) || ((k =? 1) && (2 <=? iter_pixels self d)) then 1%Q
  else (time_elapsed_milliseconds game / 1000)%Q.

Definition candidate_topleft (self : HumanPlayer) (game : Game)
           (d : Direction) (k : Z) : Q * Q :=
  new_topleft d (topleft_float (walkabout self)) k
              (candidate_speed self game d k).

Definition candidate_query (self : HumanPlayer) (game : Game)
           (d : Direction) (k : Z) : Rect.t :=
  Rect.union (rect (walkabout self))
             (pygame_Rect (candidate_topleft self game d k)
                          (size (walkabout self))).

(** The coordinate of a position along the axis of [d], counted positive
    in the direction of [d], and the coordinate across it. *)
Definition along (d : Direction) (topleft : Q * Q) : Q :=
  match d with
  | east => fst topleft
  | west => (- fst topleft)%Q
  | south => snd topleft
  | north => (- snd topleft)%Q
  end.

Definition across (d : Direction) (topleft : Q * Q) : Q :=
  match d with
  | east | west => snd topleft
  | north | south => fst topleft
  end.

(** ** The movement resolver on machine numbers

    The definitions above idealise numbers: exact rationals for floats and
    unbounded integers for rectangle coordinates.  This module repeats
    [HumanPlayer.move] on the numbers the program runs on: binary64 floats
    with the operations of IEEE 754 (round to nearest even), and the C
    [int] fields of [pygame.Rect], whose arithmetic wraps around at 32
    bits. *)

Module Machine.

Definition INT_MIN : Z := -2147483648.
Definition INT_MAX : Z := 2147483647.

(** The values a C [int] holds, and the wrap-around of its arithmetic. *)
Definition fits (z : Z) : Prop := INT_MIN <= z <= INT_MAX.

Definition wrap (z : Z) : Z := (z + 2 ^ 31) mod 2 ^ 32 - 2 ^ 31.

(** Truncation toward zero of the finite float [(-1)^s * m * 2^e]. *)
Definition trunc_finite (s : bool) (m : positive) (e : Z) : Z :=
  let magnitude :=
    if 0 <=? e then Z.shiftl (Z.pos m) e else Z.shiftr (Z.pos m) (- e) in
  if s then - magnitude else magnitude.

(** What [int(x)] raises on a float that is not finite. *)
Inductive Raised : Type := OverflowError | ValueError.

(** [int(x)] for a float: truncation toward zero, [OverflowError] on an
    infinity and [ValueError] on a NaN. *)
Definition py_int (x : float) : Z + Raised :=
  match Prim2SF x with
  | S754_zero _ => inl 0
  | S754_finite s m e => inl (trunc_finite s m e)
  | S754_infinity _ => inr OverflowError
  | S754_nan => inr ValueError
  end.

(** The float of a Python [int] in arithmetic with a float: the nearest
    binary64 value. *)
Definition of_int (k : Z) : float :=
  SF2Prim (binary_normalize prec emax k 0 false).

(** The C cast [(int)x] that [pygame.Rect] applies to a float
    coordinate: truncation, and [INT_MIN] when the result does not fit or
    [x] is not finite, which is what the conversion instruction of x86-64
    delivers. *)
Definition c_int (x : float) : Z :=
  match py_int x with
  | inl z => if (INT_MIN <=? z) && (z <=? INT_MAX) then z else INT_MIN
  | inr _ => INT_MIN
  end.

(** [pygame.Rect((left, top), (width, height))]; the size is a pair of C
    ints already. *)
Definition pygame_Rect (topleft : float * float) (size : Z * Z) : Rect.t :=
  Rect.mk (c_int (fst topleft)) (c_int (snd topleft)) (fst size) (snd size).

(** [Rect.union] in C [int] arithmetic. *)
Definition union (a b : Rect.t) : Rect.t :=
  let ux := Z.min (Rect.x a) (Rect.x b) in
  let uy := Z.min (Rect.y a) (Rect.y b) in
  Rect.mk ux uy
    (wrap (Z.max (wrap (Rect.x a + Rect.w a)) (wrap (Rect.x b + Rect.w b))
           - ux))
    (wrap (Z.max (wrap (Rect.y a + Rect.h a)) (wrap (Rect.y b + Rect.h b))
           - uy)).

(** [Rect.colliderect] in C [int] arithmetic. *)
Definition colliderect (a b : Rect.t) : bool :=
  if (Rect.w a =? 0) || (Rect.h a =? 0) || (Rect.w b =? 0) || (Rect.h b =? 0)
  then false
  else
    let ar := wrap (Rect.x a + Rect.w a) in
    let ab := wrap (Rect.y a + Rect.h a) in
    let br := wrap (Rect.x b + Rect.w b) in
    let bb := wrap (Rect.y b + Rect.h b) in
    (Z.min (Rect.x a) ar <? Z.max (Rect.x b) br)
    && (Z.min (Rect.y a) ab <? Z.max (Rect.y b) bb)
    && (Z.max (Rect.x a) ar >? Z.min (Rect.x b) br)
    && (Z.max (Rect.y a) ab >? Z.min (Rect.y b) bb).

(** Modelled from the spec: [scene.collide_check] as the test "does
    rectangle R intersect any tile with the SOLID flag", over the placed
    tiles with their bounding boxes and flag sets. *)
Definition grid_collide_check (grid : list (Rect.t * Z)) (r : Rect.t) : bool :=
  existsb (fun cell => TileFlags.contains (snd cell) TileFlags.SOLID
                       && colliderect r (fst cell)) grid.

Record Velocity : Type := mkVelocity { vx : float; vy : float }.

Record Walkabout : Type := mkWalkabout {
  direction : Direction;
  action : Action;
  topleft_float : float * float;
  size : Z * Z;
  rect : Rect.t
}.

Record HumanPlayer : Type := mkHumanPlayer {
  walkabout : Walkabout;
  velocity : Velocity
}.

(** [game.screen.time_elapsed_milliseconds] (an [int] there is converted
    by the division) and [game.scene.collide_check]. *)
Record Game : Type := mkGame {
  time_elapsed_milliseconds : float;
  collide_check : Rect.t -> bool
}.

Definition set_direction (d : Direction) (wa : Walkabout) : Walkabout :=
  mkWalkabout d (action wa) (topleft_float wa) (size wa) (rect wa).

Definition set_action (a : Action) (wa : Walkabout) : Walkabout :=
  mkWalkabout (direction wa) a (topleft_float wa) (size wa) (rect wa).

(** One pass of the loop body: the candidate, the speed factor it was
    multiplied by, the destination rectangle and the rectangle handed to
    [collide_check]. *)
Record Probe : Type := mkProbe {
  p_pixels : Z;
  p_speed : float;
  p_destination : Rect.t;
  p_query : Rect.t
}.

Section Move.

(** [walkabout.current_animation().largest_frame_size()] *)
Variable largest_frame_size : Walkabout -> Z * Z.

Definition planned_movement_in_pixels (self : HumanPlayer) (d : Direction)
  : float :=
  match d with
  | north | south => vy (velocity self)
  | east | west => vx (velocity self)
  end.

(** [max([1, int(planned_movement_in_pixels)])] *)
Definition iter_pixels (self : HumanPlayer) (d : Direction) : Z + Raised :=
  match py_int (planned_movement_in_pixels self d) with
  | inl n => inl (Z.max 1 n)
  | inr e => inr e
  end.

(** [if pixels == 2: adj_speed = 1], on the loop-carried variable. *)
Definition clamp_speed (pixels : Z) (adj_speed : float) : float :=
  if pixels =? 2 then 1%float else adj_speed.

Definition new_topleft (d : Direction) (topleft : float * float)
           (pixels : Z) (adj_speed : float) : float * float :=
  let '(tx, ty) := topleft in
  let step := (of_int pixels * adj_speed)%float in
  match d with
  | north => (tx, (ty - step)%float)
  | east => ((tx + step)%float, ty)
  | south => (tx, (ty + step)%float)
  | west => ((tx - step)%float, ty)
  end.

(** The [for pixels in range(iter_pixels, 0, -1)] loop. *)
Fixpoint move_loop (game : Game) (d : Direction) (wa : Walkabout)
         (adj_speed : float) (candidates : list Z)
  : option Walkabout * list Probe :=
  match candidates with
  | [] => (None, [])
  | pixels :: rest =>
      let adj_speed := clamp_speed pixels adj_speed in
      let topleft' := new_topleft d (topleft_float wa) pixels adj_speed in
      let destination_rect := pygame_Rect topleft' (size wa) in
      let collision_rect := union (rect wa) destination_rect in
      let probe := mkProbe pixels adj_speed destination_rect collision_rect in
      if negb (collide_check game collision_rect) then
        let wa1 := set_action walk wa in
        let wa2 := mkWalkabout (direction wa1) (action wa1) topleft'
                               (largest_frame_size wa1) destination_rect in
        (Some wa2, [probe])
      else
        let '(res, probes) := move_loop game d wa adj_speed rest in
        (res, probe :: probes)
  end.

(** [HumanPlayer.move(game, direction)]: the boolean returned or the
    exception raised, the player afterwards, and the probes made. *)
Definition move_trace (self : HumanPlayer) (game : Game) (d : Direction)
  : (bool + Raised) * HumanPlayer * list Probe :=
  let wa := set_direction d (walkabout self) in
  let adj_speed := (time_elapsed_milliseconds game / 1000)%float in
  match iter_pixels self d with
  | inr e => (inr e, mkHumanPlayer wa (velocity self), [])
  | inl n =>
      match move_loop game d wa adj_speed (range_down n) with
      | (Some wa', probes) =>
          (inl true, mkHumanPlayer wa' (velocity self), probes)
      | (None, probes) =>
          (inl false, mkHumanPlayer (set_action stand wa) (velocity self),
           probes)
      end
  end.

Definition move (self : HumanPlayer) (game : Game) (d : Direction)
  : (bool + Raised) * HumanPlayer :=
  fst (move_trace self game d).

Definition probes (self : HumanPlayer) (game : Game) (d : Direction)
  : list Probe :=
  snd (move_trace self game d).

End Move.

(** The speed factor in force when the candidate [k] of a countdown from
    [n] is tried, the position it leads to and the rectangle tested. *)
Definition candidate_speed (game : Game) (n k : Z) : float :=
  if (k =? 2) || ((k =? 1) && (2 <=? n)) then 1%float
  else (time_elapsed_milliseconds game / 1000)%float.

Definition candidate_topleft (self : HumanPlayer) (game : Game)
           (d : Direction) (n k : Z) : float * float :=
  new_topleft d (topleft_float (walkabout self)) k (candidate_speed game n k).

Definition candidate_query (self : HumanPlayer) (game : Game)
           (d : Direction) (n k : Z) : Rect.t :=
  union (rect (walkabout self))
        (pygame_Rect (candidate_topleft self game d n k)
                     (size (walkabout self))).

(** The integer rectangle sits where [pygame.Rect] puts the float
    position. *)
Definition position_synced (wa : Walkabout) : Prop :=
  Rect.x (rect wa) = c_int (fst (topleft_float wa))
  /\ Rect.y (rect wa) = c_int (snd (topleft_float wa)).

(** No computation of [union a b] leaves the C [int] range. *)
Definition union_exact (a b : Rect.t) : Prop :=
  fits (Rect.x a + Rect.w a) /\ fits (Rect.x b + Rect.w b)
  /\ fits (Rect.y a + Rect.h a) /\ fits (Rect.y b + Rect.h b)
  /\ fits (Z.max (Rect.x a + Rect.w a) (Rect.x b + Rect.w b)
           - Z.min (Rect.x a) (Rect.x b))
  /\ fits (Z.max (Rect.y a + Rect.h a) (Rect.y b + Rect.h b)
           - Z.min (Rect.y a) (Rect.y b)).

(** The edges of a tile are C ints. *)
Definition edges_fit (r : Rect.t) : Prop :=
  fits (Rect.x r + Rect.w r) /\ fits (Rect.y r + Rect.h r).

(** The reading of "no tunnelling" for a call over a grid of tiles: after
    a commit no solid tile of positive size lies between the start and the
    final rectangle along the axis, in the lane of the actor. *)
Definition no_tunnel (lfs : Walkabout -> Z * Z) (self : HumanPlayer)
           (game : Game) (d : Direction) (grid : list (Rect.t * Z)) : Prop :=
  fst (move lfs self game d) = inl true ->
  forall tile flags,
    In (tile, flags) grid ->
    TileFlags.contains flags TileFlags.SOLID = true ->
    positive_rect tile ->
    ~ (between_on_axis d (rect (walkabout self))
                       (rect (walkabout (snd (move lfs self game d)))) tile
       /\ in_lane d (rect (walkabout self)) tile).

(** Sample actors and scenes on machine numbers. *)
Module Samples.

Definition frame_size (_ : Walkabout) : Z * Z := (16, 16).

(** A 16x16 actor at [x] with velocity [v] to the east. *)
Definition actor (x : Z) (v : float) : HumanPlayer :=
  mkHumanPlayer
    (mkWalkabout south stand (of_int x, 0%float) (16, 16)
                 (Rect.mk x 0 16 16))
    (mkVelocity v 0).

(** A scene with one solid tile, ticking at [ms] milliseconds. *)
Definition scene (ms : float) (tile : Rect.t) : Game :=
  mkGame ms (grid_collide_check [(tile, TileFlags.SOLID)]).

(** A solid tile 10 pixels wide in the gap between an actor close to the
    largest C int and the place 40 pixels further east. *)
Definition edge_tile : Rect.t := Rect.mk 2147483620 0 10 16.

Definition far_tile : Rect.t := Rect.mk 100 0 10 16.

(** A 16x16 actor at the float position 28.84 (the nearest binary64
    value), with its rectangle at 28, and a solid tile starting at 44. *)
Definition drifter (v : float) : HumanPlayer :=
  mkHumanPlayer
    (mkWalkabout south stand (0x1.cd70a3d70a3d7p+4%float, 0%float) (16, 16)
                 (Rect.mk 28 0 16 16))
    (mkVelocity v 0).
Definition ahead_tile : Rect.t := Rect.mk 44 0 16 16.

End Samples.

End Machine.

(** ** The 16x16 scenario *)

Module Scenario.

(** Solid exactly on the pixels [108,124) x [100,116). *)
Definition solid_region : Rect.t := Rect.mk 108 100 16 16.

Definition game (ms : Q) : Game := mkGame ms (Rect.colliderect solid_region).

(** A 16x16 actor at (100,100) with velocity (2,0); the facing and the
    action it had before the call are free. *)
Definition actor (facing : Direction) (doing : Action) : HumanPlayer :=
  mkHumanPlayer
    (mkWalkabout facing doing (100%Q, 100%Q) (16, 16) (Rect.mk 100 100 16 16))
    (mkVelocity 2 0).

Definition frame_size (_ : Walkabout) : Z * Z := (16, 16).

End Scenario.


(** ** Sample actors and scenes *)

Module Examples.

Definition frame_size (_ : Walkabout) : Z * Z := (16, 16).
Definition big_frame_size (_ : Walkabout) : Z * Z := (24, 32).

(** A 16x16 actor at the origin with velocity (5,0). *)
Definition runner : HumanPlayer :=
  mkHumanPlayer
    (mkWalkabout south stand (0%Q, 0%Q) (16, 16) (Rect.mk 0 0 16 16))
    (mkVelocity 5 0).

(** The same actor with velocity (2,0), and one standing still. *)
Definition stroller : HumanPlayer :=
  mkHumanPlayer (walkabout runner) (mkVelocity 2 0).

(** One solid tile far to the east. *)
Definition far_grid : list (Rect.t * Z) :=
  [(Rect.mk 40 0 16 16, TileFlags.SOLID)].
Definition open_game : Game := mkGame 1000 (grid_collide_check far_grid).

(** A scene where every rectangle collides, ticking at 16 ms. *)
Definition walled_game : Game := mkGame 16 (fun _ => true).

End Examples.

(** * Properties *)

(** ** The candidate range *)

Lemma countdown_In (n : nat) (k : Z) :
  In k (countdown n) <-> 1 <= k <= Z.of_nat n.
Proof.
  induction n as [|m IH].
  - simpl. lia.
  - change (countdown (S m)) with (Z.of_nat (S m) :: countdown m).
    simpl In. rewrite IH. lia.
Qed.





(** ** The loop of [move] *)

Section MoveFacts.

Variable largest_frame_size : Walkabout -> Z * Z.
Variable game : Game.
Variable d : Direction.

Local Abbreviation loop := (move_loop largest_frame_size game d).

Lemma move_loop_cons wa a pixels rest :
  loop wa a (pixels :: rest) =
  let a' := clamp_speed pixels a in
  let topleft' := new_topleft d (topleft_float wa) pixels a' in
  let dest := pygame_Rect topleft' (size wa) in
  let q := Rect.union (rect wa) dest in
  let probe := mkProbe pixels a' dest q in
  if collide_check game q then
    (fst (loop wa a' rest), probe :: snd (loop wa a' rest))
  else
    (Some (mkWalkabout (direction wa) walk topleft'
             (largest_frame_size (set_action walk wa)) dest), [probe]).
Proof.
  simpl. destruct (collide_check game _); simpl.
  - destruct (move_loop _ _ _ _ _ rest); reflexivity.
  - reflexivity.
Qed.

(** The candidates probed are an initial segment of the range, and the
    whole range when the loop falls through. *)
Lemma move_loop_prefix wa cands : forall a,
  exists rest,
    cands = map p_pixels (snd (loop wa a cands)) ++ rest
    /\ (fst (loop wa a cands) = None -> rest = []).
Proof.
  induction cands as [|k ks IH]; intros a.
  - exists []. split; reflexivity.
  - rewrite move_loop_cons. cbv zeta.
    destruct (collide_check game _).
    + destruct (IH (clamp_speed k a)) as [rest [E N]].
      exists rest. simpl. split; [now rewrite <- E | exact N].
    + exists ks. simpl. split; [reflexivity | discriminate].
Qed.


(** Every probe queries the union of the current rectangle and the
    destination built from the current size. *)
Lemma move_loop_probe_shape wa cands : forall a p,
  In p (snd (loop wa a cands)) ->
  p_destination p =
    pygame_Rect (new_topleft d (topleft_float wa) (p_pixels p) (p_speed p))
                (size wa)
  /\ p_query p = Rect.union (rect wa) (p_destination p).
Proof.
  induction cands as [|k ks IH]; intros a p.
  - simpl. tauto.
  - rewrite move_loop_cons. cbv zeta.
    destruct (collide_check game _); simpl.
    + intros [<-|Hin]; [simpl; split; reflexivity | eapply IH; eassumption].
    + intros [<-|[]]. simpl; split; reflexivity.
Qed.

(** What a commit stores. *)
Lemma move_loop_commit wa cands : forall a wa',
  fst (loop wa a cands) = Some wa' ->
  exists p,
    In p (snd (loop wa a cands))
    /\ collide_check game (p_query p) = false
    /\ rect wa' = p_destination p
    /\ topleft_float wa' =
         new_topleft d (topleft_float wa) (p_pixels p) (p_speed p)
    /\ size wa' = largest_frame_size (set_action walk wa)
    /\ action wa' = walk
    /\ direction wa' = direction wa.
Proof.
  induction cands as [|k ks IH]; intros a wa'.
  - simpl. discriminate.
  - rewrite move_loop_cons. cbv zeta.
    destruct (collide_check game _) eqn:Hc; simpl.
    + intros H. destruct (IH _ _ H) as [p [Hin Hp]].
      exists p. split; [right; exact Hin | exact Hp].
    + intros [= <-]. eexists. split; [left; reflexivity|].
      simpl. repeat split; auto.
Qed.



Lemma speed_rule_head (k : Z) (a : Q) (dest q : Rect.t) :
  speed_rule k a (mkProbe k (clamp_speed k a) dest q).
Proof.
  unfold speed_rule, clamp_speed. cbn [p_pixels p_speed].
  destruct (Z.eqb_spec k 2) as [->|Hk].
  - repeat split; intros; try lia; reflexivity.
  - destruct (Z.leb_spec 2 k); repeat split; intros; try lia; reflexivity.
Qed.

Lemma speed_rule_tail (k : Z) (a : Q) (p : Probe) :
  1 <= p_pixels p <= k - 1 ->
  speed_rule (k - 1) (clamp_speed k a) p -> speed_rule k a p.
Proof.
  unfold speed_rule, clamp_speed. intros Hp [H3 [H2 H1]].
  destruct (Z.eqb_spec k 2) as [->|Hk].
  - repeat split; intros; try lia. rewrite (H1 H).
    destruct (2 <=? 2 - 1); reflexivity.
  - repeat split; intros; auto. rewrite (H1 H).
    destruct (Z.leb_spec 2 (k - 1)); destruct (Z.leb_spec 2 k);
      try reflexivity; lia.
Qed.

Lemma move_loop_speed wa (n : nat) : forall a p,
  In p (snd (loop wa a (countdown n))) -> speed_rule (Z.of_nat n) a p.
Proof.
  induction n as [|m IH]; intros a p.
  - simpl. tauto.
  - change (countdown (S m)) with (Z.of_nat (S m) :: countdown m).
    rewrite move_loop_cons. cbv zeta.
    destruct (collide_check game _); cbn [snd In].
    + intros [<-|Hin]; [apply speed_rule_head|].
      assert (Hk : 1 <= p_pixels p <= Z.of_nat m).
      { apply countdown_In.
        destruct (move_loop_prefix wa (countdown m)
                    (clamp_speed (Z.of_nat (S m)) a)) as [rest [E _]].
        rewrite E. apply in_or_app. left. now apply in_map. }
      apply speed_rule_tail; [lia|].
      replace (Z.of_nat (S m) - 1) with (Z.of_nat m) by lia.
      apply IH. exact Hin.
    + intros [<-|[]]. apply speed_rule_head.
Qed.

End MoveFacts.

(** ** [HumanPlayer.move] as a whole *)

Section MoveCall.

Variable lfs : Walkabout -> Z * Z.
Variable self : HumanPlayer.
Variable game : Game.
Variable d : Direction.

Local Abbreviation wa0 := (set_direction d (walkabout self)).
Local Abbreviation run := (loop_run lfs self game d).

Lemma probes_loop : probes lfs self game d = snd run.
Proof.
  unfold probes, move_trace, loop_run, iter_pixels. cbn [velocity].
  destruct (move_loop _ _ _ _ _ _) as [[wa'|] ps]; reflexivity.
Qed.

Lemma move_loop_result :
  move lfs self game d =
  match fst run with
  | Some wa' => (true, mkHumanPlayer wa' (velocity self))
  | None => (false, mkHumanPlayer (set_action stand wa0) (velocity self))
  end.
Proof.
  unfold move, move_trace, loop_run, iter_pixels. cbn [velocity].
  destruct (move_loop _ _ _ _ _ _) as [[wa'|] ps]; reflexivity.
Qed.

Lemma move_true_inv :
  fst (move lfs self game d) = true ->
  exists wa', fst run = Some wa'
              /\ snd (move lfs self game d) = mkHumanPlayer wa' (velocity self).
Proof.
  rewrite move_loop_result. destruct (fst run) as [wa'|]; simpl.
  - intros _. exists wa'. split; reflexivity.
  - discriminate.
Qed.

Lemma iter_pixels_pos : 1 <= iter_pixels self d.
Proof. unfold iter_pixels. lia. Qed.


End MoveCall.

(** C3 (as stated).  With velocity 2 against a wall the candidates are 2 and
    then 1, and the 1-pixel candidate is multiplied by 1, not by the elapsed
    0.016 s: the reading that clamps the candidate 2 alone fails. *)
Lemma clamp_only_at_two_fails :
  ~ clamp_only_at_two Examples.walled_game
      (probes Examples.frame_size Examples.stroller Examples.walled_game east).
Proof.
  intros H.
  specialize (H (mkProbe 1 1 (Rect.mk 1 0 16 16) (Rect.mk 0 0 17 16))).
  assert (Hin : In (mkProbe 1 1 (Rect.mk 1 0 16 16) (Rect.mk 0 0 17 16))
                   (probes Examples.frame_size Examples.stroller
                           Examples.walled_game east))
    by (vm_compute; right; left; reflexivity).
  specialize (H Hin). vm_compute in H. discriminate H.
Qed.

(** C3 (amended).  A candidate above 2 is multiplied by the elapsed-time
    factor; the candidate 2 by 1; the candidate 1 by 1 when the search
    started at 2 or above (the assignment made for the candidate 2, if that
    candidate was reached, is still in force) and by the elapsed-time factor
    when the search started at 1. *)
Theorem move_speed_factor (lfs : Walkabout -> Z * Z) (self : HumanPlayer)
        (game : Game) (d : Direction) (p : Probe) :
  In p (probes lfs self game d) ->
  let elapsed := (time_elapsed_milliseconds game / 1000)%Q in
  (2 < p_pixels p -> p_speed p = elapsed)
  /\ (p_pixels p = 2 -> p_speed p = 1%Q)
  /\ (p_pixels p = 1 ->
      p_speed p = if 2 <=? iter_pixels self d then 1%Q else elapsed).
Proof.
  rewrite probes_loop. unfold loop_run, range_down. intros Hin.
  apply move_loop_speed in Hin. unfold speed_rule in Hin.
  rewrite Z2Nat.id in Hin by (pose proof (iter_pixels_pos self d); lia).
  exact Hin.
Qed.

Lemma move_speed_factor_witness :
  let p := mkProbe 1 1 (Rect.mk 1 0 16 16) (Rect.mk 0 0 17 16) in
  In p (probes Examples.frame_size Examples.stroller Examples.walled_game east)
  /\ p_speed p = 1%Q.
Proof.
  cbv zeta.
  assert (Hin : In (mkProbe 1 1 (Rect.mk 1 0 16 16) (Rect.mk 0 0 17 16))
                   (probes Examples.frame_size Examples.stroller
                           Examples.walled_game east))
    by (vm_compute; right; left; reflexivity).
  split; [exact Hin|].
  exact (proj2 (proj2 (move_speed_factor Examples.frame_size Examples.stroller
                         Examples.walled_game east _ Hin)) eq_refl).
Defined.

(** C4 (as stated).  In the 16x16 scenario, at 1000 ms per frame, [move]
    does not return true with the actor at x = 101. *)
Lemma scenario_no_one_pixel_commit :
  ~ (fst (move Scenario.frame_size (Scenario.actor south stand)
               (Scenario.game 1000) east) = true
     /\ (fst (topleft_float
                (walkabout
                   (snd (move Scenario.frame_size (Scenario.actor south stand)
                              (Scenario.game 1000) east)))) == 101)%Q).
Proof.
  intros [Hm _]. vm_compute in Hm. discriminate Hm.
Qed.

(** C4 (amended).  In the 16x16 scenario the actor's own rectangle
    [100,116) x [100,116) already overlaps the solid region, so both
    candidates 2 and 1 are blocked: for every elapsed time [move] returns
    false, the action is stand, the actor faces east and stays at
    (100,100) with its rectangle and size as before. *)
Theorem scenario_blocked (lfs : Walkabout -> Z * Z) (ms : Q)
        (facing : Direction) (doing : Action) :
  move lfs (Scenario.actor facing doing) (Scenario.game ms) east =
  (false, Scenario.actor east stand)
  /\ tried lfs (Scenario.actor facing doing) (Scenario.game ms) east = [2; 1]
  /\ Rect.colliderect Scenario.solid_region
       (rect (walkabout (Scenario.actor facing doing))) = true.
Proof.
  repeat split.
Qed.







(** C9.  When [move] returns true, the stored rectangle has the width and
    height of the size the actor had before the call, while the size field
    holds the largest frame size of the animation current once the action
    is walk; and there is a call after which the two differ. *)
Theorem move_commit_rect_keeps_old_size :
  (forall (lfs : Walkabout -> Z * Z) (self : HumanPlayer) (game : Game)
          (d : Direction),
     fst (move lfs self game d) = true ->
     let before := walkabout self in
     let after := walkabout (snd (move lfs self game d)) in
     Rect.w (rect after) = fst (size before)
     /\ Rect.h (rect after) = snd (size before)
     /\ size after =
          lfs (mkWalkabout d walk (topleft_float before) (size before)
                           (rect before))
     /\ action after = walk)
  /\ (exists lfs self game d,
        fst (move lfs self game d) = true
        /\ let after := walkabout (snd (move lfs self game d)) in
           (Rect.w (rect after), Rect.h (rect after)) = (16, 16)
           /\ size after = (24, 32)).
Proof.
  split.
  - intros lfs self game d Hm. cbv zeta.
    destruct (move_true_inv _ _ _ _ Hm) as [wa' [Hrun Hsnd]].
    rewrite Hsnd. cbn [walkabout].
    destruct (move_loop_commit _ _ _ _ _ _ _ Hrun)
      as [p [Hin [_ [Hrect [_ [Hsize [Hact _]]]]]]].
    destruct (move_loop_probe_shape _ _ _ _ _ _ _ Hin) as [Hdest _].
    rewrite Hrect, Hdest, Hsize.
    repeat split; [exact Hact].
  - exists Examples.big_frame_size, Examples.runner, Examples.open_game, east.
    vm_compute. repeat split.
Qed.

Lemma move_commit_rect_keeps_old_size_witness :
  let after :=
    walkabout (snd (move Examples.big_frame_size Examples.runner
                         Examples.open_game east)) in
  Rect.w (rect after) = 16 /\ size after = (24, 32).
Proof.
  cbv zeta.
  assert (Hm : fst (move Examples.big_frame_size Examples.runner
                         Examples.open_game east) = true)
    by (vm_compute; reflexivity).
  destruct (proj1 move_commit_rect_keeps_old_size Examples.big_frame_size
              Examples.runner Examples.open_game east Hm)
    as [Hw [_ [Hs _]]].
  split; [exact Hw | exact Hs].
Defined.

(** ** NPC activation *)

Section Activation.

Context {E : Type}.
Variable activation_body deactivation_body : E -> E.

Local Abbreviation set_active :=
  (NPC.set_active activation_body deactivation_body).

(** Any value that is neither [True] nor [False] is stored in [_active]
    before the setter raises. *)
Lemma set_active_invalid (status : PyValue) (s : NPC.t E) :
  is_True status = false -> is_False status = false ->
  set_active status s
  = (NPC.mk status (NPC.ext s) (NPC.hook_calls s), inr ValueError).
Proof.
  intros HT HF. unfold NPC.set_active, NPC.bind, NPC.store_active.
  rewrite HT, HF. reflexivity.
Qed.

Lemma invocations_snoc_same (hk : Hook) (v : PyValue) (e : E)
      (s : NPC.t E) :
  NPC.invocations hk (NPC.mk v e (NPC.hook_calls s ++ [hk]))
  = S (NPC.invocations hk s).
Proof.
  unfold NPC.invocations. cbn [NPC.hook_calls].
  rewrite filter_app, length_app. destruct hk; simpl; lia.
Qed.

Lemma invocations_snoc_other (hk other : Hook) (v : PyValue) (e : E)
      (s : NPC.t E) :
  NPC.hook_eqb hk other = false ->
  NPC.invocations hk (NPC.mk v e (NPC.hook_calls s ++ [other]))
  = NPC.invocations hk s.
Proof.
  intros Hne. unfold NPC.invocations. cbn [NPC.hook_calls].
  rewrite filter_app, length_app. simpl. rewrite Hne. simpl. lia.
Qed.

(** C7.  Assigning [True] finishes normally and invokes [on_activation]
    once more and [on_deactivation] not at all, whatever the value
    before; assigning [False] does the same with the hooks exchanged;
    and assigning [True] twice in a row invokes [on_activation] twice. *)
Theorem set_active_always_invokes_hook (s : NPC.t E) :
  let on := set_active (PyBool true) s in
  let off := set_active (PyBool false) s in
  let on_twice := set_active (PyBool true) (fst on) in
  (snd on = inl tt
   /\ NPC.active (fst on) = PyBool true
   /\ NPC.ext (fst on) = activation_body (NPC.ext s)
   /\ NPC.hook_calls (fst on) = NPC.hook_calls s ++ [OnActivation]
   /\ NPC.invocations OnActivation (fst on)
      = S (NPC.invocations OnActivation s)
   /\ NPC.invocations OnDeactivation (fst on)
      = NPC.invocations OnDeactivation s)
  /\ (snd off = inl tt
      /\ NPC.active (fst off) = PyBool false
      /\ NPC.ext (fst off) = deactivation_body (NPC.ext s)
      /\ NPC.hook_calls (fst off) = NPC.hook_calls s ++ [OnDeactivation]
      /\ NPC.invocations OnDeactivation (fst off)
         = S (NPC.invocations OnDeactivation s)
      /\ NPC.invocations OnActivation (fst off)
         = NPC.invocations OnActivation s)
  /\ (snd on_twice = inl tt
      /\ NPC.active (fst on_twice) = NPC.active (fst on)
      /\ NPC.hook_calls (fst on_twice)
         = NPC.hook_calls s ++ [OnActivation; OnActivation]
      /\ NPC.invocations OnActivation (fst on_twice)
         = S (S (NPC.invocations OnActivation s))).
Proof.
  cbv zeta. unfold NPC.set_active, NPC.bind, NPC.store_active,
    NPC.on_activation, NPC.on_deactivation, NPC.active.
  cbn [is_True is_False fst snd NPC._active NPC.ext NPC.hook_calls].
  repeat split.
  - apply (invocations_snoc_same OnActivation).
  - apply invocations_snoc_other. reflexivity.
  - apply (invocations_snoc_same OnDeactivation).
  - apply invocations_snoc_other. reflexivity.
  - now rewrite <- app_assoc.
  - unfold NPC.invocations. cbn [NPC.hook_calls].
    rewrite !filter_app, !length_app. simpl. lia.
Qed.

End Activation.

(** C2 (what the code does).  On a fresh NPC, whose [active] is [False],
    assigning the integer 5 raises [ValueError], and [active] then reads 5:
    the setter stores the value before it checks it. *)
Theorem set_active_invalid_changes_state :
  let npc := NPC.init tt in
  let after := NPC.set_active (fun e => e) (fun e => e) (PyInt 5) npc in
  NPC.active npc = PyBool false
  /\ snd after = inr ValueError
  /\ NPC.active (fst after) = PyInt 5
  /\ NPC.active (fst after) <> NPC.active npc.
Proof.
  cbv zeta. repeat split. discriminate.
Qed.

(** The [Door] of the docstring locks on activation and unlocks on
    deactivation. *)
Example door_follows_activation :
  let opened := fst (Door.set_active (PyBool true) Door.init) in
  NPC.ext Door.init = false
  /\ NPC.ext opened = true
  /\ NPC.ext (fst (Door.set_active (PyBool false) opened)) = false.
Proof. repeat split. Qed.

(** ** Tiles *)

Lemma contains_SOLID_testbit (flags : Z) :
  TileFlags.contains flags TileFlags.SOLID = Z.testbit flags 0.
Proof.
  unfold TileFlags.contains, TileFlags.SOLID.
  rewrite Z.land_comm. change 1 with (Z.ones 1) at 1.
  rewrite Z.land_ones by lia. change (2 ^ 1) with 2.
  rewrite <- Z.bit0_mod. destruct (Z.testbit flags 0); reflexivity.
Qed.

Section TileFacts.

Context {env : Collaborators}.

(** A tile built by the constructor carries a sprite whenever its flags
    say it is animated. *)
Lemma new_Tile_sprite ts id flags metadata (t : Tile) :
  new_Tile ts id flags metadata = inl t ->
  is_animated t = true ->
  exists sprite, animatedsprite t = Some sprite.
Proof.
  unfold new_Tile, is_animated. cbn [tile_flags].
  destruct (TileFlags.contains flags TileFlags.ANIMATED) eqn:Ha.
  - destruct metadata as [animation|]; [|discriminate].
    intros [= <-] _. eexists. reflexivity.
  - intros [= <-]. cbn [tile_flags]. congruence.
Qed.

(** C8.  [update] returns a blank tile ([tile_id = -1]) as it is.  For any
    other tile: if it is animated, the clock is advanced by the delta,
    the image is the clock's image afterwards and the bounding box is that
    image's rectangle; if it is not, the image is the tilesheet sub-image
    at [tile_id] and the bounding box is that image's rectangle. *)
Theorem update_cases (self : Tile) (timedelta : Q) :
  (tile_id self = -1 -> update self timedelta = inl self)
  /\ (tile_id self <> -1 -> is_animated self = true ->
      forall sprite, animatedsprite self = Some sprite ->
        let sprite' := sprite_update sprite timedelta in
        update self timedelta =
        inl (mkTile (tilesheet self) (tile_id self) (tile_flags self)
                    (tile_metadata self) (sprite_image sprite')
                    (get_rect (sprite_image sprite')) (Some sprite')))
  /\ (tile_id self <> -1 -> is_animated self = false ->
      let img := get_tile_subsurface (tilesheet self) (tile_id self) in
      update self timedelta =
      inl (mkTile (tilesheet self) (tile_id self) (tile_flags self)
                  (tile_metadata self) img (get_rect img)
                  (animatedsprite self))).
Proof.
  unfold update. repeat split.
  - intros ->. reflexivity.
  - intros Hid Ha sprite Hs. apply Z.eqb_neq in Hid.
    rewrite Hid, Ha, Hs. reflexivity.
  - intros Hid Ha. apply Z.eqb_neq in Hid.
    rewrite Hid, Ha. reflexivity.
Qed.

(** C10.  The three flag predicates agree on any two tiles with the same
    flag set, whatever their tile ids; a blank tile whose flags have the
    SOLID bit reports solid, and [update] leaves it as it is. *)
Theorem flag_predicates_ignore_tile_id :
  (forall t1 t2 : Tile,
     tile_flags t1 = tile_flags t2 ->
     is_solid t1 = is_solid t2
     /\ is_destructible t1 = is_destructible t2
     /\ is_animated t1 = is_animated t2)
  /\ (forall (t : Tile) (timedelta : Q),
        tile_id t = -1 ->
        Z.testbit (tile_flags t) 0 = true ->
        is_solid t = true /\ update t timedelta = inl t).
Proof.
  split.
  - intros t1 t2 Hf. unfold is_solid, is_destructible, is_animated.
    rewrite Hf. repeat split.
  - intros t timedelta Hid Hbit. split.
    + unfold is_solid. now rewrite contains_SOLID_testbit.
    + unfold update. rewrite Hid. reflexivity.
Qed.

End TileFacts.

Example water_is_constructed :
  @new_Tile toy_env tt 7 TileFlags.ANIMATED (Some [(7, 100%Q); (8, 100%Q)])
  = inl Tiles.water.
Proof. reflexivity. Qed.

Lemma update_cases_witness :
  update Tiles.blank_wall 16 = inl Tiles.blank_wall
  /\ update Tiles.water 16 =
     inl (@mkTile toy_env tt 7 TileFlags.ANIMATED (tile_metadata Tiles.water) 7
                 (Rect.mk 0 0 32 32)
                 (Some (sprite_update Tiles.water_sprite 16)))
  /\ update Tiles.grass 16 =
     inl (@mkTile toy_env tt 3 TileFlags.NONE None 3 (Rect.mk 0 0 32 32) None).
Proof.
  split; [|split].
  - apply (proj1 (update_cases Tiles.blank_wall 16)). reflexivity.
  - refine (proj1 (proj2 (update_cases Tiles.water 16)) _ eq_refl
                   Tiles.water_sprite eq_refl).
    discriminate.
  - apply (proj2 (proj2 (update_cases Tiles.grass 16)));
      [discriminate | reflexivity].
Defined.

Lemma flag_predicates_ignore_tile_id_witness :
  tile_id Tiles.blank_wall = -1
  /\ is_solid Tiles.blank_wall = true
  /\ update Tiles.blank_wall 16 = inl Tiles.blank_wall
  /\ is_solid (@mkTile toy_env tt 3 TileFlags.SOLID None (-1)
                        (Rect.mk 0 0 32 32) None)
     = is_solid Tiles.blank_wall.
Proof.
  destruct (@flag_predicates_ignore_tile_id toy_env) as [Hsame Hblank].
  destruct (Hblank Tiles.blank_wall 16%Q eq_refl eq_refl) as [Hs Hu].
  destruct (Hsame (@mkTile toy_env tt 3 TileFlags.SOLID None (-1)
                          (Rect.mk 0 0 32 32) None)
                  Tiles.blank_wall eq_refl) as [Hss _].
  repeat split; assumption.
Defined.

(** * Further properties *)

(** ** More on [HumanPlayer.move] *)


(** Each probe of a call, in closed form. *)
Lemma probe_closed_form (lfs : Walkabout -> Z * Z) (self : HumanPlayer)
      (game : Game) (d : Direction) (p : Probe) :
  In p (probes lfs self game d) ->
  1 <= p_pixels p <= iter_pixels self d
  /\ p_speed p = candidate_speed self game d (p_pixels p)
  /\ p_destination p =
       pygame_Rect (candidate_topleft self game d (p_pixels p))
                   (size (walkabout self))
  /\ p_query p = candidate_query self game d (p_pixels p).
Proof.
  rewrite probes_loop. unfold loop_run. intros Hin.
  pose proof (iter_pixels_pos self d) as Hpos.
  assert (Hrange : 1 <= p_pixels p <= iter_pixels self d).
  { destruct (move_loop_prefix lfs game d (set_direction d (walkabout self))
                (range_down (iter_pixels self d))
                (time_elapsed_milliseconds game / 1000)%Q) as [rest [E _]].
    assert (Hk : In (p_pixels p) (range_down (iter_pixels self d)))
      by (rewrite E; apply in_or_app; left; now apply in_map).
    unfold range_down in Hk. apply countdown_In in Hk. lia. }
  assert (Hspeed : p_speed p = candidate_speed self game d (p_pixels p)).
  { unfold range_down in Hin. apply move_loop_speed in Hin.
    rewrite Z2Nat.id in Hin by lia. destruct Hin as [H3 [H2 H1]].
    unfold candidate_speed.
    destruct (Z.eqb_spec (p_pixels p) 2) as [E2|N2]; [now apply H2|].
    destruct (Z.eqb_spec (p_pixels p) 1) as [E1|N1]; cbn [orb andb].
    - now apply H1.
    - apply H3. lia. }
  destruct (move_loop_probe_shape _ _ _ _ _ _ _ Hin) as [Hdest Hq].
  cbn [set_direction topleft_float size rect] in Hdest, Hq.
  unfold candidate_query, candidate_topleft. rewrite <- Hspeed, <- Hdest.
  repeat split; try lia; assumption.
Qed.

(** X1.  Whatever the outcome, [move] leaves the actor facing the requested
    direction and keeps its velocity; the action is walk after a call that
    returned true and stand after one that returned false. *)
Theorem move_records_direction_and_action (lfs : Walkabout -> Z * Z)
        (self : HumanPlayer) (game : Game) (d : Direction) :
  let after := snd (move lfs self game d) in
  direction (walkabout after) = d
  /\ velocity after = velocity self
  /\ action (walkabout after) = if fst (move lfs self game d) then walk
                                else stand.
Proof.
  cbv zeta. rewrite move_loop_result.
  destruct (fst (loop_run lfs self game d)) as [wa'|] eqn:Hrun.
  - unfold loop_run in Hrun.
    destruct (move_loop_commit _ _ _ _ _ _ _ Hrun)
      as [p [_ [_ [_ [_ [_ [Hact Hdir]]]]]]].
    cbn [fst snd walkabout velocity]. rewrite Hact, Hdir. repeat split.
  - repeat split.
Qed.

Lemma range_down_head (n : Z) :
  1 <= n -> range_down n = n :: range_down (n - 1).
Proof.
  intros Hn. unfold range_down.
  replace (Z.to_nat n) with (S (Z.to_nat (n - 1))) by lia.
  change (countdown (S (Z.to_nat (n - 1))))
    with (Z.of_nat (S (Z.to_nat (n - 1))) :: countdown (Z.to_nat (n - 1))).
  f_equal. lia.
Qed.

(** The float position after a call: the old one, or that of a probe. *)
Lemma move_position_cases (lfs : Walkabout -> Z * Z) (self : HumanPlayer)
      (game : Game) (d : Direction) :
  let after := walkabout (snd (move lfs self game d)) in
  (fst (move lfs self game d) = false
   /\ topleft_float after = topleft_float (walkabout self)
   /\ rect after = rect (walkabout self)
   /\ size after = size (walkabout self))
  \/ (fst (move lfs self game d) = true
      /\ exists p, In p (probes lfs self game d)
                   /\ topleft_float after
                      = new_topleft d (topleft_float (walkabout self))
                                    (p_pixels p) (p_speed p)
                   /\ rect after
                      = pygame_Rect (topleft_float after)
                                    (size (walkabout self))).
Proof.
  cbv zeta. rewrite move_loop_result, probes_loop.
  destruct (fst (loop_run lfs self game d)) as [wa'|] eqn:Hrun.
  - right. split; [reflexivity|]. unfold loop_run in Hrun.
    destruct (move_loop_commit _ _ _ _ _ _ _ Hrun)
      as [p [Hin [_ [Hrect [Htl _]]]]].
    destruct (move_loop_probe_shape _ _ _ _ _ _ _ Hin) as [Hdest _].
    exists p. cbn [snd walkabout]. split; [exact Hin|].
    split; [exact Htl|]. rewrite Hrect, Hdest, Htl. reflexivity.
  - left. repeat split.
Qed.

(** X6.  [move] never changes the coordinate across the movement axis: the
    y of the float position for east and west, the x for north and south. *)
Theorem move_keeps_cross_axis (lfs : Walkabout -> Z * Z)
        (self : HumanPlayer) (game : Game) (d : Direction) :
  across d (topleft_float (walkabout (snd (move lfs self game d))))
  = across d (topleft_float (walkabout self)).
Proof.
  destruct (move_position_cases lfs self game d)
    as [[_ [Htl _]]|[_ [p [_ [Htl _]]]]]; rewrite Htl; [reflexivity|].
  destruct (topleft_float (walkabout self)) as [tx ty].
  destruct d; reflexivity.
Qed.

(** X8.  With a non-negative elapsed time [move] never moves the actor
    against the requested direction: the coordinate along [d] does not
    decrease. *)
Theorem move_never_backwards (lfs : Walkabout -> Z * Z)
        (self : HumanPlayer) (game : Game) (d : Direction) :
  (0 <= time_elapsed_milliseconds game)%Q ->
  (along d (topleft_float (walkabout self))
   <= along d (topleft_float (walkabout (snd (move lfs self game d)))))%Q.
Proof.
  intros Hms.
  destruct (move_position_cases lfs self game d)
    as [[_ [Htl _]]|[_ [p [Hin [Htl _]]]]]; rewrite Htl; [apply Qle_refl|].
  destruct (probe_closed_form _ _ _ _ _ Hin) as [Hk [Hs _]].
  assert (Hspeed : (0 <= p_speed p)%Q).
  { rewrite Hs. unfold candidate_speed.
    destruct (_ || _); [discriminate|].
    apply Qle_shift_div_l; [reflexivity|]. rewrite Qmult_0_l. exact Hms. }
  assert (Hpix : (0 <= inject_Z (p_pixels p))%Q).
  { unfold Qle. simpl. lia. }
  pose proof (Qmult_le_0_compat _ _ Hpix Hspeed) as Hstep.
  destruct (topleft_float (walkabout self)) as [tx ty].
  unfold new_topleft.
  set (step := (inject_Z (p_pixels p) * p_speed p)%Q) in *.
  destruct d; cbn [along fst snd]; lra.
Qed.

Lemma move_never_backwards_witness :
  (along west (0%Q, 0%Q)
   <= along west
        (topleft_float
           (walkabout (snd (move Examples.frame_size Examples.runner
                                 Examples.open_game west)))))%Q.
Proof.
  apply (move_never_backwards Examples.frame_size Examples.runner
           Examples.open_game west).
  vm_compute. discriminate.
Defined.

(** ** More on the NPC *)

Lemma last_cons_default {A : Type} (a d : A) (l : list A) :
  last (a :: l) d = last l a.
Proof.
  revert a d. induction l as [|b l IH]; intros a d; [reflexivity|].
  change (last (a :: b :: l) d) with (last (b :: l) d).
  rewrite IH. symmetry. apply IH.
Qed.

Section Assignments.

Context {E : Type}.
Variable activation_body deactivation_body : E -> E.

Local Abbreviation set_active :=
  (NPC.set_active activation_body deactivation_body).
Local Abbreviation assign_each :=
  (NPC.assign_each activation_body deactivation_body).

(** The body that the hook of a boolean runs on the subclass fields. *)
Local Abbreviation body_of :=
  (fun b : bool => if b then activation_body else deactivation_body).

Lemma set_active_bool (b : bool) (s : NPC.t E) :
  set_active (PyBool b) s
  = (NPC.mk (PyBool b) (body_of b (NPC.ext s))
            (NPC.hook_calls s ++ [NPC.hook_of b]), inl tt).
Proof. destruct b; reflexivity. Qed.

Lemma set_active_stores (status : PyValue) (s : NPC.t E) :
  NPC.active (fst (set_active status s)) = status.
Proof.
  unfold NPC.set_active, NPC.bind, NPC.store_active.
  destruct (is_True status); [reflexivity|].
  destruct (is_False status); reflexivity.
Qed.

Lemma assign_each_cons_bool (b : bool) (rest : list PyValue) (s : NPC.t E) :
  assign_each (PyBool b :: rest) s
  = assign_each rest
      (NPC.mk (PyBool b) (body_of b (NPC.ext s))
              (NPC.hook_calls s ++ [NPC.hook_of b])).
Proof.
  change (assign_each (PyBool b :: rest) s)
    with (NPC.bind (set_active (PyBool b)) (fun _ => assign_each rest) s).
  unfold NPC.bind. rewrite set_active_bool. reflexivity.
Qed.

(** X9.  Any sequence of boolean assignments to [active] succeeds; it
    invokes one hook per assignment, in order ([on_activation] for True,
    [on_deactivation] for False), runs the hook bodies in that order on the
    subclass fields, and [active] ends as the last value assigned. *)
Theorem assign_booleans (bs : list bool) (s : NPC.t E) :
  let r := assign_each (map PyBool bs) s in
  snd r = inl tt
  /\ NPC.hook_calls (fst r) = NPC.hook_calls s ++ map NPC.hook_of bs
  /\ NPC.active (fst r) = last (map PyBool bs) (NPC.active s)
  /\ NPC.ext (fst r) = fold_left (fun e b => body_of b e) bs (NPC.ext s).
Proof.
  cbv zeta. revert s. induction bs as [|b bs IH]; intros s.
  - cbn. rewrite app_nil_r. repeat split.
  - cbn [map]. rewrite assign_each_cons_bool.
    destruct (IH (NPC.mk (PyBool b) (body_of b (NPC.ext s))
                         (NPC.hook_calls s ++ [NPC.hook_of b])))
      as [Hr [Hh [Ha He]]].
    rewrite Hr, Hh, Ha, He. cbn [NPC.hook_calls NPC.active NPC._active NPC.ext].
    rewrite <- app_assoc, last_cons_default. repeat split.
Qed.

(** X10.  A sequence of assignments stops at the first value that is
    neither True nor False: it raises [ValueError]; the hooks of the
    booleans before it have run and none after; [active] reads the
    rejected value. *)
Theorem assign_stops_at_invalid (bs : list bool) (status : PyValue)
        (rest : list PyValue) (s : NPC.t E) :
  is_True status = false -> is_False status = false ->
  let r := assign_each (map PyBool bs ++ status :: rest) s in
  snd r = inr ValueError
  /\ NPC.hook_calls (fst r) = NPC.hook_calls s ++ map NPC.hook_of bs
  /\ NPC.active (fst r) = status
  /\ NPC.ext (fst r) = fold_left (fun e b => body_of b e) bs (NPC.ext s).
Proof.
  intros HT HF. cbv zeta. revert s. induction bs as [|b bs IH]; intros s.
  - cbn [map app].
    change (assign_each (status :: rest) s)
      with (NPC.bind (set_active status) (fun _ => assign_each rest) s).
    unfold NPC.bind. rewrite (set_active_invalid _ _ _ _ HT HF).
    cbn. rewrite app_nil_r. repeat split.
  - cbn [map app]. rewrite assign_each_cons_bool.
    destruct (IH (NPC.mk (PyBool b) (body_of b (NPC.ext s))
                         (NPC.hook_calls s ++ [NPC.hook_of b])))
      as [Hr [Hh [Ha He]]].
    rewrite Hr, Hh, Ha, He. cbn [NPC.hook_calls NPC.ext].
    rewrite <- app_assoc. repeat split.
Qed.

(** X11.  After any assignment, successful or not, [__str__] gives
    ["<Active NPC>"] exactly when the value assigned is [True]; so a
    rejected truthy value such as 1 still prints as inactive.  A new NPC
    prints as inactive. *)
Theorem str_follows_last_assignment (status : PyValue) (s : NPC.t E)
        (e : E) :
  (NPC.__str__ (fst (set_active status s)) = "<Active NPC>"%string
   <-> status = PyBool true)
  /\ (NPC.__str__ (fst (set_active status s)) = "<Inactive NPC>"%string
      <-> status <> PyBool true)
  /\ NPC.__str__ (NPC.init e) = "<Inactive NPC>"%string.
Proof.
  unfold NPC.__str__. rewrite set_active_stores.
  destruct status as [[|]| | |]; cbn [is_True];
    repeat split; try discriminate; try reflexivity; try congruence.
Qed.

End Assignments.

Lemma assign_stops_at_invalid_witness :
  let r := NPC.assign_each Door.activation_body Door.deactivation_body
             [PyBool true; PyInt 1; PyBool false] Door.init in
  snd r = inr ValueError
  /\ NPC.hook_calls (fst r) = [OnActivation]
  /\ NPC.active (fst r) = PyInt 1.
Proof.
  destruct (assign_stops_at_invalid Door.activation_body
              Door.deactivation_body [true] (PyInt 1) [PyBool false]
              Door.init eq_refl eq_refl) as [Hr [Hh [Ha _]]].
  repeat split; assumption.
Defined.

(** X12.  The [Door] of the docstring stays locked exactly while it is
    active: after any sequence of boolean assignments to a new door,
    [active] is the boolean held in [locked]. *)
Theorem door_locked_tracks_active (bs : list bool) :
  let door := fst (NPC.assign_each Door.activation_body
                     Door.deactivation_body (map PyBool bs) Door.init) in
  NPC.active door = PyBool (NPC.ext door).
Proof.
  cbv zeta.
  assert (Hgen : forall s : NPC.t bool,
             NPC.active s = PyBool (NPC.ext s) ->
             let door := fst (NPC.assign_each Door.activation_body
                                Door.deactivation_body (map PyBool bs) s) in
             NPC.active door = PyBool (NPC.ext door)).
  { induction bs as [|b bs IH]; intros s Hs; [exact Hs|].
    cbv zeta. cbn [map]. rewrite assign_each_cons_bool.
    apply IH. destruct b; reflexivity. }
  apply Hgen. reflexivity.
Qed.

(** ** More on tiles *)

Lemma contains_pow2_testbit (flags n : Z) :
  0 <= n -> TileFlags.contains flags (2 ^ n) = Z.testbit flags n.
Proof.
  intros Hn. unfold TileFlags.contains.
  destruct (Z.testbit flags n) eqn:Hb.
  - apply Z.eqb_eq. apply Z.bits_inj'. intros m Hm.
    rewrite Z.land_spec, Z.pow2_bits_eqb by lia.
    destruct (Z.eqb_spec n m) as [<-|_]; [now rewrite Hb | reflexivity].
  - apply Z.eqb_neq. intros H.
    assert (Hbit : Z.testbit (Z.land (2 ^ n) flags) n = Z.testbit (2 ^ n) n)
      by now rewrite H.
    rewrite Z.land_spec, Z.pow2_bits_eqb, Z.eqb_refl, Hb in Hbit by lia.
    discriminate Hbit.
Qed.

Lemma low_three_bits (f g : Z) :
  Z.land f 7 = Z.land g 7
  <-> (Z.testbit f 0 = Z.testbit g 0
       /\ Z.testbit f 1 = Z.testbit g 1
       /\ Z.testbit f 2 = Z.testbit g 2).
Proof.
  split.
  - intros H.
    assert (Hbit : forall m, Z.testbit (Z.land f 7) m
                             = Z.testbit (Z.land g 7) m)
      by (intros m; now rewrite H).
    pose proof (Hbit 0) as H0. pose proof (Hbit 1) as H1.
    pose proof (Hbit 2) as H2. rewrite !Z.land_spec in H0, H1, H2.
    cbn in H0, H1, H2. rewrite !andb_true_r in H0, H1, H2. auto.
  - intros [H0 [H1 H2]]. apply Z.bits_inj'. intros m Hm.
    rewrite !Z.land_spec. change 7 with (Z.ones 3).
    destruct (Z_lt_le_dec m 3) as [Hlt|Hge].
    + assert (Hcase : m = 0 \/ m = 1 \/ m = 2) by lia.
      destruct Hcase as [Hc|[Hc|Hc]]; subst m; congruence.
    + rewrite Z.ones_spec_high by lia. now rewrite !andb_false_r.
Qed.

(** [flags_to_str_array] in terms of the three flag tests. *)
Lemma flags_to_str_array_unfold (flags : Z) :
  TileFlags.flags_to_str_array flags
  = (if TileFlags.contains flags TileFlags.SOLID
     then ["SOLID"%string] else [])
    ++ (if TileFlags.contains flags TileFlags.DESTRUCTIBLE
        then ["DESTRUCTIBLE"%string] else [])
    ++ (if TileFlags.contains flags TileFlags.ANIMATED
        then ["ANIMATED"%string] else []).
Proof.
  unfold TileFlags.flags_to_str_array, TileFlags.members.
  cbn [TileFlags.names_of].
  change (TileFlags.NONE =? TileFlags.NONE) with true.
  change (TileFlags.SOLID =? TileFlags.NONE) with false.
  change (TileFlags.DESTRUCTIBLE =? TileFlags.NONE) with false.
  change (TileFlags.ANIMATED =? TileFlags.NONE) with false.
  cbv iota.
  destruct (TileFlags.contains flags TileFlags.SOLID),
           (TileFlags.contains flags TileFlags.DESTRUCTIBLE),
           (TileFlags.contains flags TileFlags.ANIMATED); reflexivity.
Qed.

(** X13.  [flags_to_str_array] lists a name exactly when the predicate of
    that flag holds for a tile carrying the flags: "SOLID" iff [is_solid],
    "DESTRUCTIBLE" iff [is_destructible], "ANIMATED" iff [is_animated];
    it never lists "NONE" or any other name. *)
Theorem flag_names_match_predicates {env : Collaborators} (self : Tile) :
  let names := TileFlags.flags_to_str_array (tile_flags self) in
  (In "SOLID"%string names <-> is_solid self = true)
  /\ (In "DESTRUCTIBLE"%string names <-> is_destructible self = true)
  /\ (In "ANIMATED"%string names <-> is_animated self = true)
  /\ ~ In "NONE"%string names
  /\ (forall name, In name names ->
        name = "SOLID"%string \/ name = "DESTRUCTIBLE"%string
        \/ name = "ANIMATED"%string).
Proof.
  cbv zeta. rewrite flags_to_str_array_unfold.
  unfold is_solid, is_destructible, is_animated.
  destruct (TileFlags.contains (tile_flags self) TileFlags.SOLID),
           (TileFlags.contains (tile_flags self) TileFlags.DESTRUCTIBLE),
           (TileFlags.contains (tile_flags self) TileFlags.ANIMATED);
    cbn [app In]; unfold not;
    repeat split; intros;
    repeat match goal with
           | H : _ \/ _ |- _ => destruct H
           | H : False |- _ => destruct H
           | H : _ = _ |- _ => first [discriminate H | subst]
           end; auto; try discriminate.
Qed.

(** X14.  The names listed are those of the three low bits of the flag
    value, SOLID before DESTRUCTIBLE before ANIMATED: two flag values give
    the same list exactly when they agree on these three bits, and the
    value 0 ([NONE]) gives the empty list. *)
Theorem flag_names_determine_low_bits (f g : Z) :
  (TileFlags.flags_to_str_array f = TileFlags.flags_to_str_array g
   <-> Z.land f 7 = Z.land g 7)
  /\ TileFlags.flags_to_str_array f
     = (if Z.testbit f 0 then ["SOLID"%string] else [])
       ++ (if Z.testbit f 1 then ["DESTRUCTIBLE"%string] else [])
       ++ (if Z.testbit f 2 then ["ANIMATED"%string] else [])
  /\ TileFlags.flags_to_str_array TileFlags.NONE = [].
Proof.
  assert (Hbits : forall x,
    TileFlags.flags_to_str_array x
    = (if Z.testbit x 0 then ["SOLID"%string] else [])
      ++ (if Z.testbit x 1 then ["DESTRUCTIBLE"%string] else [])
      ++ (if Z.testbit x 2 then ["ANIMATED"%string] else [])).
  { intros x. rewrite flags_to_str_array_unfold.
    change TileFlags.SOLID with (2 ^ 0).
    change TileFlags.DESTRUCTIBLE with (2 ^ 1).
    change TileFlags.ANIMATED with (2 ^ 2).
    rewrite !contains_pow2_testbit by lia. reflexivity. }
  split; [|split; [apply Hbits | reflexivity]].
  rewrite low_three_bits, !Hbits.
  destruct (Z.testbit f 0), (Z.testbit f 1), (Z.testbit f 2),
           (Z.testbit g 0), (Z.testbit g 1), (Z.testbit g 2);
    cbn [app]; split;
    first [ intros H; discriminate H
          | intros [H0 [H1 H2]]; discriminate
          | intros _; repeat split; reflexivity ].
Qed.

Section TileLife.

Context {env : Collaborators}.

(** X15.  The frame loop of the constructor makes one frame per entry of
    the animation, with that entry's sub-image and duration, starting when
    the durations of the entries before it have elapsed: the first frame
    starts at 0 and each next frame starts where the previous one ends. *)
Theorem build_frames_schedule (ts : Tilesheet) (t0 : Q)
        (animation : list (Z * Q)) :
  length (build_frames ts t0 animation) = length animation
  /\ forall (i : nat) (dflt : FrameT),
       (i < length animation)%nat ->
       let start := fold_left Qplus (map snd (firstn i animation)) t0 in
       nth i (build_frames ts t0 animation) dflt
       = Frame (get_tile_subsurface ts (fst (nth i animation (0%Z, 0%Q))))
               start (snd (nth i animation (0%Z, 0%Q)))
       /\ fold_left Qplus (map snd (firstn (S i) animation)) t0
          = (start + snd (nth i animation (0%Z, 0%Q)))%Q.
Proof.
  revert t0. induction animation as [|[tileid tileduration] rest IH];
    intros t0.
  - split; [reflexivity|]. intros i dflt Hi. simpl in Hi. lia.
  - destruct (IH (t0 + tileduration)%Q) as [Hlen Hnth].
    split; [simpl; now rewrite Hlen|].
    intros i dflt Hi. destruct i as [|j].
    + split; reflexivity.
    + simpl in Hi. apply PeanoNat.lt_S_n in Hi.
      destruct (Hnth j dflt Hi) as [Hf Hs].
      split; [exact Hf | exact Hs].
Qed.

(** One [update] keeps a well-formed tile well formed and succeeds. *)
Lemma update_well_formed (self : Tile) (timedelta : Q) :
  well_formed self ->
  exists t, update self timedelta = inl t
            /\ well_formed t
            /\ tilesheet t = tilesheet self
            /\ tile_id t = tile_id self
            /\ tile_flags t = tile_flags self
            /\ tile_metadata t = tile_metadata self.
Proof.
  intros [Hsprite Hrect]. unfold update.
  destruct (tile_id self =? -1); cbn [negb].
  - exists self. repeat split; assumption.
  - destruct (is_animated self) eqn:Ha.
    + destruct (animatedsprite self) as [sprite|] eqn:Hs;
        [|exfalso; now apply Hsprite].
      eexists. split; [reflexivity|].
      unfold well_formed, with_image, is_animated. cbn.
      repeat split. discriminate.
    + eexists. split; [reflexivity|].
      unfold well_formed, with_image, is_animated in *. cbn.
      repeat split. intros H. congruence.
Qed.

(** X17.  A well-formed tile, such as the constructor returns, is updated
    any number of times without an error; it stays well formed (the
    bounding box is the one of the image, an animated tile has its sprite)
    and keeps its tilesheet, id, flags and metadata, hence its solidity. *)
Theorem update_each_well_formed (self : Tile) (deltas : list Q) :
  well_formed self ->
  exists t, update_each self deltas = inl t
            /\ well_formed t
            /\ tilesheet t = tilesheet self
            /\ tile_id t = tile_id self
            /\ tile_flags t = tile_flags self
            /\ tile_metadata t = tile_metadata self
            /\ is_solid t = is_solid self.
Proof.
  revert self. induction deltas as [|dt rest IH]; intros self Hwf.
  - exists self. repeat split; try reflexivity; apply Hwf.
  - destruct (update_well_formed self dt Hwf)
      as [t1 [Hu [Hwf1 [Hts [Hid [Hfl Hmd]]]]]].
    destruct (IH t1 Hwf1) as [t [Hus [Hwf' [Hts' [Hid' [Hfl' [Hmd' Hso]]]]]]].
    exists t. cbn [update_each]. rewrite Hu.
    split; [exact Hus|]. split; [exact Hwf'|].
    unfold is_solid in *.
    repeat split; congruence.
Qed.

(** X18.  For a tile that is neither blank nor animated the deltas do not
    matter: after one update or many, with any deltas, the image is the
    sub-image at [tile_id] and the bounding box is that image's. *)
Theorem update_each_static (self : Tile) (timedelta : Q) (rest : list Q) :
  tile_id self <> -1 -> is_animated self = false ->
  let img := get_tile_subsurface (tilesheet self) (tile_id self) in
  update_each self (timedelta :: rest)
  = inl (mkTile (tilesheet self) (tile_id self) (tile_flags self)
                (tile_metadata self) img (get_rect img)
                (animatedsprite self)).
Proof.
  intros Hid Ha. cbv zeta. apply Z.eqb_neq in Hid.
  assert (Hone : forall t dt,
            (tile_id t =? -1) = false -> is_animated t = false ->
            update t dt
            = inl (mkTile (tilesheet t) (tile_id t) (tile_flags t)
                          (tile_metadata t)
                          (get_tile_subsurface (tilesheet t) (tile_id t))
                          (get_rect
                             (get_tile_subsurface (tilesheet t) (tile_id t)))
                          (animatedsprite t))).
  { intros t dt Ht Hat. unfold update. rewrite Ht, Hat. reflexivity. }
  revert timedelta self Hid Ha.
  induction rest as [|dt' rest IH]; intros timedelta self Hid Ha.
  - cbn [update_each]. now rewrite Hone.
  - change (update_each self (timedelta :: dt' :: rest))
      with (match update self timedelta with
            | inl self' => update_each self' (dt' :: rest)
            | inr e => inr e
            end).
    rewrite (Hone self timedelta Hid Ha).
    rewrite IH; [reflexivity | exact Hid | exact Ha].
Qed.

(** X19.  For an animated tile that is not blank, a series of updates
    advances the sprite by each delta in turn and shows the image the
    sprite has at the end; a blank tile ([tile_id = -1]) is returned as it
    is, its sprite never advanced. *)
Theorem update_each_animated (self : Tile) (sprite : AnimatedSprite)
        (timedelta : Q) (rest : list Q) :
  is_animated self = true -> animatedsprite self = Some sprite ->
  let sprite' := fold_left sprite_update (timedelta :: rest) sprite in
  (tile_id self <> -1 ->
   update_each self (timedelta :: rest)
   = inl (mkTile (tilesheet self) (tile_id self) (tile_flags self)
                 (tile_metadata self) (sprite_image sprite')
                 (get_rect (sprite_image sprite')) (Some sprite')))
  /\ (tile_id self = -1 ->
      update_each self (timedelta :: rest) = inl self).
Proof.
  intros Ha Hs. cbv zeta. split.
  - intros Hid. apply Z.eqb_neq in Hid.
    revert timedelta self sprite Ha Hs Hid.
    induction rest as [|dt' rest IH]; intros timedelta self sprite Ha Hs Hid.
    + cbn [update_each fold_left]. unfold update.
      rewrite Hid, Ha, Hs. reflexivity.
    + change (update_each self (timedelta :: dt' :: rest))
        with (match update self timedelta with
              | inl self' => update_each self' (dt' :: rest)
              | inr e => inr e
              end).
      unfold update at 1. rewrite Hid, Ha, Hs. cbn [negb].
      rewrite (IH dt' _ (sprite_update sprite timedelta));
        [reflexivity | exact Ha | reflexivity | exact Hid].
  - intros Hid.
    assert (Hblank : forall dt, update self dt = inl self)
      by (intros dt; unfold update; rewrite Hid; reflexivity).
    induction (timedelta :: rest) as [|dt ds IH]; [reflexivity|].
    cbn [update_each]. rewrite Hblank. exact IH.
Qed.

End TileLife.

Lemma build_frames_schedule_witness :
  nth 1 (@build_frames toy_env tt 0 [(7, 100%Q); (8, 50%Q); (9, 25%Q)])
      (0, 0%Q, 0%Q)
  = (8, (0 + 100)%Q, 50%Q).
Proof.
  refine (proj1 (proj2 (@build_frames_schedule toy_env tt 0
                          [(7, 100%Q); (8, 50%Q); (9, 25%Q)])
                       1%nat (0, 0%Q, 0%Q) _)).
  simpl. lia.
Defined.

Lemma update_each_well_formed_witness :
  exists t, update_each Tiles.water [16%Q; 17%Q; 16%Q] = inl t
            /\ is_solid t = is_solid Tiles.water.
Proof.
  assert (Hwf : well_formed Tiles.water).
  { split; [intros _; discriminate | reflexivity]. }
  destruct (update_each_well_formed Tiles.water [16%Q; 17%Q; 16%Q] Hwf)
    as [t [Hu [_ [_ [_ [_ [_ Hs]]]]]]].
  exists t. split; assumption.
Defined.

Lemma update_each_static_witness :
  update_each Tiles.grass [16%Q; 40%Q]
  = inl (@mkTile toy_env tt 3 TileFlags.NONE None 3 (Rect.mk 0 0 32 32) None).
Proof.
  apply (update_each_static Tiles.grass 16 [40%Q]);
    [discriminate | reflexivity].
Defined.

Lemma update_each_animated_witness :
  update_each Tiles.water [16%Q; 40%Q]
  = inl (@mkTile toy_env tt 7 TileFlags.ANIMATED (tile_metadata Tiles.water)
           7 (Rect.mk 0 0 32 32)
           (Some (sprite_update (sprite_update Tiles.water_sprite 16) 40))).
Proof.
  refine (proj1 (update_each_animated Tiles.water Tiles.water_sprite 16
                   [40%Q] eq_refl eq_refl) _).
  discriminate.
Defined.

(** ** The scene stack and the frame loop *)

Lemma hd_error_rev_last {A : Type} (l : list A) (a : A) :
  hd_error (rev l) = Some a -> exists below, l = below ++ [a].
Proof.
  intros H. destruct (rev l) as [|b r] eqn:E; [discriminate H|].
  injection H as ->. exists (rev r).
  rewrite <- (rev_involutive l), E. reflexivity.
Qed.

Section SceneStack.

Variable Scene : Type.
Variable Event : Type.
Variable Err : Type.
Variable IndexError : Err.
Variable is_TracebackScene : Scene -> bool.
Variable TracebackScene : GameLoop.t Scene -> Err -> Scene.
Variable scene_update :
  Scene -> GameLoop.t Scene -> GameLoop.t Scene * option Err.
Variable scene_handle_event :
  Scene -> Event -> GameLoop.t Scene -> GameLoop.t Scene * option Err.
Variable is_QUIT : Event -> bool.

Local Abbreviation game := (GameLoop.t Scene).
Local Abbreviation stack := (GameLoop.scene_stack Scene).
Local Abbreviation running := (GameLoop.running Scene).
Local Abbreviation current := (GameLoop.current Scene).
Local Abbreviation scene_push := (GameLoop.scene_push Scene).
Local Abbreviation scene_pop := (GameLoop.scene_pop Scene Err IndexError).
Local Abbreviation scene_replace := (GameLoop.scene_replace Scene).
Local Abbreviation on_exception :=
  (GameLoop.on_exception Scene Err IndexError is_TracebackScene
                         TracebackScene).
Local Abbreviation update_current_scene :=
  (GameLoop.update_current_scene Scene Err IndexError is_TracebackScene
                                 TracebackScene scene_update).
Local Abbreviation handle_events :=
  (GameLoop.handle_events Scene Event Err IndexError is_TracebackScene
                          TracebackScene scene_handle_event is_QUIT).

Lemma current_snoc (r : bool) (l : list Scene) (s : Scene) :
  current (GameLoop.mk Scene r (l ++ [s])) = Some s.
Proof.
  unfold GameLoop.current. cbn [GameLoop.scene_stack].
  rewrite rev_unit. reflexivity.
Qed.

Lemma scene_pop_snoc (r : bool) (l : list Scene) (s : Scene) :
  scene_pop (GameLoop.mk Scene r (l ++ [s])) = (GameLoop.mk Scene r l, None).
Proof.
  unfold GameLoop.scene_pop. cbn [GameLoop.scene_stack GameLoop.running].
  rewrite removelast_last. destruct l; reflexivity.
Qed.

(** X20.  A pushed scene becomes the current one, and popping it gives the
    game back as it was.  After [scene_replace] exactly the new scene is
    stacked, built against the already emptied stack, whatever was stacked
    before: one pop empties the stack and a second raises [IndexError]. *)
Theorem scene_push_pop (scenecls : game -> Scene) (g : game) :
  current (scene_push scenecls g) = Some (scenecls g)
  /\ scene_pop (scene_push scenecls g) = (g, None)
  /\ stack (scene_replace scenecls g)
     = [scenecls (GameLoop.mk Scene (running g) [])]
  /\ scene_pop (scene_replace scenecls g)
     = (GameLoop.mk Scene (running g) [], None)
  /\ scene_pop (fst (scene_pop (scene_replace scenecls g)))
     = (GameLoop.mk Scene (running g) [], Some IndexError).
Proof.
  destruct g as [r l]. unfold GameLoop.scene_replace, GameLoop.scene_push.
  cbn [GameLoop.running GameLoop.scene_stack].
  split; [apply current_snoc|].
  split; [apply scene_pop_snoc|].
  repeat split.
Qed.

(** X21.  [scene_pop] raises [IndexError] exactly when no scene is stacked
    and then leaves the game as it is; otherwise it removes the current
    scene and nothing else. *)
Theorem scene_pop_cases (g : game) :
  (current g = None ->
   stack g = [] /\ scene_pop g = (g, Some IndexError))
  /\ (forall s, current g = Some s ->
        exists below,
          stack g = below ++ [s]
          /\ scene_pop g = (GameLoop.mk Scene (running g) below, None)).
Proof.
  destruct g as [r l]. split.
  - unfold GameLoop.current. cbn [GameLoop.scene_stack]. intros H.
    assert (El : l = []).
    { destruct (rev l) as [|b t] eqn:E; [|discriminate H].
      rewrite <- (rev_involutive l), E. reflexivity. }
    subst l. split; reflexivity.
  - intros s H. unfold GameLoop.current in H. cbn [GameLoop.scene_stack] in H.
    destruct (hd_error_rev_last _ _ H) as [below ->].
    exists below. split; [reflexivity|].
    cbn [GameLoop.running]. apply scene_pop_snoc.
Qed.

(** Where an exception can leave the [except] clause. *)
Lemma on_exception_raises (g g' : game) (ex ex' : Err) :
  on_exception g ex = (g', Some ex') ->
  g' = g
  /\ ((current g = None /\ ex' = IndexError)
      \/ (exists top, current g = Some top
                      /\ is_TracebackScene top = true /\ ex' = ex)).
Proof.
  unfold GameLoop.on_exception.
  destruct (current g) as [top|] eqn:Hc.
  - destruct (is_TracebackScene top) eqn:Ht; [|discriminate].
    intros [= <- <-]. split; [reflexivity|]. right. exists top. auto.
  - intros [= <- <-]. split; [reflexivity|]. left. auto.
Qed.

Lemma on_exception_handles (g g' : game) (ex : Err) :
  on_exception g ex = (g', None) ->
  exists top, current g = Some top
              /\ is_TracebackScene top = false
              /\ g' = GameLoop.mk Scene (running g)
                                  (stack g ++ [TracebackScene g ex]).
Proof.
  unfold GameLoop.on_exception.
  destruct (current g) as [top|] eqn:Hc; [|discriminate].
  destruct (is_TracebackScene top) eqn:Ht; [discriminate|].
  intros [= <-]. exists top. auto.
Qed.

(** Handlers that leave the scene stack alone, and a traceback scene
    class that [isinstance] recognises. *)
Hypothesis handlers_keep_stack : forall s ev g,
  stack (fst (scene_handle_event s ev g)) = stack g.
Hypothesis traceback_recognised : forall g ex,
  is_TracebackScene (TracebackScene g ex) = true.

Lemma current_same_stack (g1 g2 : game) :
  stack g1 = stack g2 -> current g1 = current g2.
Proof. unfold GameLoop.current. now intros ->. Qed.

(** While a traceback scene is current the event loop pushes nothing. *)
Lemma handle_events_under_traceback (events : list Event) :
  forall (g : game) (top : Scene),
    current g = Some top -> is_TracebackScene top = true ->
    stack (fst (handle_events events g)) = stack g.
Proof.
  induction events as [|ev rest IH]; intros g top Hc Ht; [reflexivity|].
  cbn [GameLoop.handle_events].
  set (g0 := if is_QUIT ev then GameLoop.mk Scene false (stack g) else g).
  assert (Hs0 : stack g0 = stack g) by (unfold g0; destruct (is_QUIT ev);
                                        reflexivity).
  rewrite (current_same_stack g0 g Hs0), Hc.
  pose proof (handlers_keep_stack top ev g0) as Hk.
  destruct (scene_handle_event top ev g0) as [g1 [e1|]] eqn:Hrun;
    cbn [fst] in Hk.
  - unfold GameLoop.on_exception.
    rewrite (current_same_stack g1 g (eq_trans Hk Hs0)), Hc, Ht.
    cbn [fst]. congruence.
  - rewrite (IH g1 top); [congruence | | exact Ht].
    rewrite (current_same_stack g1 g (eq_trans Hk Hs0)). exact Hc.
Qed.

(** X24.  With handlers that leave the stack alone, the events of one
    frame never remove a scene and push at most one: afterwards the stack
    is the one before, or that with a single traceback scene on top. *)
Theorem handle_events_pushes_at_most_once (events : list Event) :
  forall g : game,
    stack (fst (handle_events events g)) = stack g
    \/ (exists g1 ex,
          stack (fst (handle_events events g))
          = stack g ++ [TracebackScene g1 ex]).
Proof.
  induction events as [|ev rest IH]; intros g; [left; reflexivity|].
  cbn [GameLoop.handle_events].
  set (g0 := if is_QUIT ev then GameLoop.mk Scene false (stack g) else g).
  assert (Hs0 : stack g0 = stack g) by (unfold g0; destruct (is_QUIT ev);
                                        reflexivity).
  destruct (current g0) as [scene|] eqn:Hc0.
  - pose proof (handlers_keep_stack scene ev g0) as Hk.
    destruct (scene_handle_event scene ev g0) as [g1 [e1|]] eqn:Hrun;
      cbn [fst] in Hk.
    + destruct (on_exception g1 e1) as [g2 [e2|]] eqn:Hon.
      * destruct (on_exception_raises _ _ _ _ Hon) as [-> _].
        left. cbn [fst]. congruence.
      * destruct (on_exception_handles _ _ _ Hon)
          as [top [_ [_ ->]]].
        right. exists g1, e1.
        rewrite (handle_events_under_traceback rest _ (TracebackScene g1 e1));
          [cbn [GameLoop.scene_stack]; congruence
          | apply current_snoc | apply traceback_recognised].
    + destruct (IH g1) as [E|[g2 [ex E]]].
      * left. congruence.
      * right. exists g2, ex. congruence.
  - left. unfold GameLoop.on_exception. rewrite Hc0. cbn [fst]. exact Hs0.
Qed.

(** Handlers that leave the [running] flag alone. *)
Hypothesis handlers_keep_running : forall s ev g,
  running (fst (scene_handle_event s ev g)) = running g.

(** X25.  With handlers that leave [running] alone, an event loop that
    ends without an exception leaves the game running exactly if it was
    running and no event was a QUIT; a QUIT is honoured even if the
    handler it is passed to fails and a traceback scene takes over. *)
Theorem handle_events_quit (events : list Event) : forall g g' : game,
  handle_events events g = (g', None) ->
  running g' = running g && forallb (fun ev => negb (is_QUIT ev)) events.
Proof.
  induction events as [|ev rest IH]; intros g g'.
  - cbn. intros [= <-]. now rewrite andb_true_r.
  - cbn [GameLoop.handle_events forallb].
    set (g0 := if is_QUIT ev then GameLoop.mk Scene false (stack g) else g).
    assert (Hr0 : running g0 = running g && negb (is_QUIT ev)).
    { unfold g0. destruct (is_QUIT ev); cbn [GameLoop.running negb].
      - now rewrite andb_false_r.
      - now rewrite andb_true_r. }
    destruct (current g0) as [scene|] eqn:Hc0.
    + pose proof (handlers_keep_running scene ev g0) as Hk.
      destruct (scene_handle_event scene ev g0) as [g1 [e1|]] eqn:Hrun;
        cbn [fst] in Hk.
      * destruct (on_exception g1 e1) as [g2 [e2|]] eqn:Hon; [discriminate|].
        destruct (on_exception_handles _ _ _ Hon)
          as [top [_ [_ ->]]].
        intros H. rewrite (IH _ _ H). cbn [GameLoop.running].
        rewrite Hk, Hr0. now rewrite andb_assoc.
      * intros H. rewrite (IH _ _ H), Hk, Hr0. now rewrite andb_assoc.
    + unfold GameLoop.on_exception.
      assert (Hc1 : current g0 = None) by exact Hc0.
      rewrite Hc1. discriminate.
Qed.

End SceneStack.

Lemma scene_pop_cases_witness :
  exists below,
    GameLoop.scene_stack _ ToyScenes.failing = below ++ [ToyScenes.faulty]
    /\ GameLoop.scene_pop _ _ 0%nat ToyScenes.failing
       = (GameLoop.mk _ true below, None).
Proof.
  exact (proj2 (scene_pop_cases ToyScenes.scene nat 0%nat ToyScenes.failing)
               ToyScenes.faulty eq_refl).
Defined.

Lemma toy_handlers_keep_stack :
  forall s ev g,
    GameLoop.scene_stack _ (fst (ToyScenes.scene_handle_event s ev g))
    = GameLoop.scene_stack _ g.
Proof. intros [| |ex] ev g; reflexivity. Qed.

Lemma toy_handlers_keep_running :
  forall s ev g,
    GameLoop.running _ (fst (ToyScenes.scene_handle_event s ev g))
    = GameLoop.running _ g.
Proof. intros [| |ex] ev g; reflexivity. Qed.

Lemma handle_events_pushes_at_most_once_witness :
  let after :=
    fst (GameLoop.handle_events _ _ _ 0%nat ToyScenes.is_TracebackScene
           ToyScenes.TracebackScene ToyScenes.scene_handle_event
           ToyScenes.is_QUIT [false; false; true] ToyScenes.failing) in
  GameLoop.scene_stack _ after = GameLoop.scene_stack _ ToyScenes.failing
  \/ (exists g1 ex,
        GameLoop.scene_stack _ after
        = GameLoop.scene_stack _ ToyScenes.failing
          ++ [ToyScenes.TracebackScene g1 ex]).
Proof.
  exact (handle_events_pushes_at_most_once ToyScenes.scene bool nat 0%nat
           ToyScenes.is_TracebackScene ToyScenes.TracebackScene
           ToyScenes.scene_handle_event ToyScenes.is_QUIT
           toy_handlers_keep_stack (fun _ _ => eq_refl)
           [false; false; true] ToyScenes.failing).
Defined.

Lemma handle_events_quit_witness :
  GameLoop.running _
    (GameLoop.mk _ false
       [ToyScenes.tilemap; ToyScenes.faulty; ToyScenes.traceback 7])
  = GameLoop.running _ ToyScenes.failing
    && forallb (fun ev => negb (ToyScenes.is_QUIT ev)) [false; true].
Proof.
  exact (handle_events_quit ToyScenes.scene bool nat 0%nat
           ToyScenes.is_TracebackScene ToyScenes.TracebackScene
           ToyScenes.scene_handle_event ToyScenes.is_QUIT
           toy_handlers_keep_running [false; true] ToyScenes.failing
           _ eq_refl).
Defined.

(** X26.  The limit handed to [clock.tick] is always positive: it is the
    configured ['fpslimit'] when that is above 0, and 60 when it is 0 or
    negative or not configured. *)
Theorem fpslimit_positive (configured : option Q) :
  (0 < GameLoop.fpslimit configured)%Q
  /\ (forall limit, configured = Some limit -> (0 < limit)%Q ->
        GameLoop.fpslimit configured = limit)
  /\ (forall limit, configured = Some limit -> (limit <= 0)%Q ->
        GameLoop.fpslimit configured = 60%Q)
  /\ (configured = None -> GameLoop.fpslimit configured = 60%Q).
Proof.
  unfold GameLoop.fpslimit. destruct configured as [limit|].
  - destruct (Qlt_le_dec 0 limit) as [Hpos|Hneg].
    + split; [exact Hpos|]. split; [now intros v [= <-]|].
      split; [|discriminate]. intros v [= <-] Hle.
      exfalso. apply (Qlt_not_le _ _ Hpos Hle).
    + split; [reflexivity|]. split.
      * intros v [= <-] Hlt. exfalso. apply (Qlt_not_le _ _ Hlt Hneg).
      * split; [reflexivity | discriminate].
  - split; [reflexivity|]. repeat split; discriminate.
Qed.

Lemma fpslimit_positive_witness :
  GameLoop.fpslimit (Some 30%Q) = 30%Q
  /\ GameLoop.fpslimit (Some (-5)%Q) = 60%Q.
Proof.
  split.
  - apply (proj1 (proj2 (fpslimit_positive (Some 30%Q))) 30%Q eq_refl).
    reflexivity.
  - apply (proj1 (proj2 (proj2 (fpslimit_positive (Some (-5)%Q))))
                 (-5)%Q eq_refl).
    discriminate.
Defined.

(** * The movement resolver on machine numbers *)

Lemma wrap_fits (z : Z) : Machine.fits z -> Machine.wrap z = z.
Proof.
  unfold Machine.fits, Machine.wrap, Machine.INT_MIN, Machine.INT_MAX.
  change (2 ^ 31) with 2147483648. change (2 ^ 32) with 4294967296.
  intros Hz. rewrite Z.mod_small by lia. lia.
Qed.

Section MachineLoop.

Variable lfs : Machine.Walkabout -> Z * Z.
Variable game : Machine.Game.
Variable d : Direction.

Local Abbreviation mloop := (Machine.move_loop lfs game d).

Lemma machine_loop_cons wa a pixels rest :
  mloop wa a (pixels :: rest) =
  let a' := Machine.clamp_speed pixels a in
  let topleft' :=
    Machine.new_topleft d (Machine.topleft_float wa) pixels a' in
  let dest := Machine.pygame_Rect topleft' (Machine.size wa) in
  let q := Machine.union (Machine.rect wa) dest in
  let probe := Machine.mkProbe pixels a' dest q in
  if Machine.collide_check game q then
    (fst (mloop wa a' rest), probe :: snd (mloop wa a' rest))
  else
    (Some (Machine.mkWalkabout (Machine.direction wa) walk topleft'
             (lfs (Machine.set_action walk wa)) dest), [probe]).
Proof.
  simpl. destruct (Machine.collide_check game _); simpl.
  - destruct (Machine.move_loop _ _ _ _ _ rest); reflexivity.
  - reflexivity.
Qed.

Lemma machine_loop_prefix wa cands : forall a,
  exists rest,
    cands = map Machine.p_pixels (snd (mloop wa a cands)) ++ rest
    /\ (fst (mloop wa a cands) = None -> rest = []).
Proof.
  induction cands as [|k ks IH]; intros a.
  - exists []. split; reflexivity.
  - rewrite machine_loop_cons. cbv zeta.
    destruct (Machine.collide_check game _).
    + destruct (IH (Machine.clamp_speed k a)) as [rest [E N]].
      exists rest. simpl. split; [now rewrite <- E | exact N].
    + exists ks. simpl. split; [reflexivity | discriminate].
Qed.

Lemma machine_loop_probe_shape wa cands : forall a p,
  In p (snd (mloop wa a cands)) ->
  Machine.p_destination p =
    Machine.pygame_Rect
      (Machine.new_topleft d (Machine.topleft_float wa)
                           (Machine.p_pixels p) (Machine.p_speed p))
      (Machine.size wa)
  /\ Machine.p_query p
     = Machine.union (Machine.rect wa) (Machine.p_destination p).
Proof.
  induction cands as [|k ks IH]; intros a p.
  - simpl. tauto.
  - rewrite machine_loop_cons. cbv zeta.
    destruct (Machine.collide_check game _); simpl.
    + intros [<-|Hin]; [simpl; split; reflexivity | eapply IH; eassumption].
    + intros [<-|[]]. simpl; split; reflexivity.
Qed.

(** A commit is the last probe, every probe before it collided, and the
    walkabout stored is built from that probe. *)
Lemma machine_loop_commit wa cands : forall a wa',
  fst (mloop wa a cands) = Some wa' ->
  exists blocked p,
    snd (mloop wa a cands) = blocked ++ [p]
    /\ Forall (fun q => Machine.collide_check game (Machine.p_query q) = true)
              blocked
    /\ Machine.collide_check game (Machine.p_query p) = false
    /\ wa' = Machine.mkWalkabout (Machine.direction wa) walk
               (Machine.new_topleft d (Machine.topleft_float wa)
                                    (Machine.p_pixels p) (Machine.p_speed p))
               (lfs (Machine.set_action walk wa))
               (Machine.p_destination p).
Proof.
  induction cands as [|k ks IH]; intros a wa'.
  - simpl. discriminate.
  - rewrite machine_loop_cons. cbv zeta.
    destruct (Machine.collide_check game _) eqn:Hc; cbn [fst snd].
    + intros H. destruct (IH _ _ H) as [blocked [p [E [Hb Hp]]]].
      eexists (_ :: blocked), p. rewrite E. split; [reflexivity|].
      split; [constructor; [exact Hc | exact Hb] | exact Hp].
    + intros [= <-]. eexists [], _. split; [reflexivity|].
      split; [constructor|]. cbn. split; [exact Hc | reflexivity].
Qed.

Lemma machine_loop_none_blocked wa cands : forall a p,
  fst (mloop wa a cands) = None ->
  In p (snd (mloop wa a cands)) ->
  Machine.collide_check game (Machine.p_query p) = true.
Proof.
  induction cands as [|k ks IH]; intros a p.
  - simpl. tauto.
  - rewrite machine_loop_cons. cbv zeta.
    destruct (Machine.collide_check game _) eqn:Hc; cbn [fst snd].
    + intros Hn [<-|Hin]; [exact Hc | eapply IH; eassumption].
    + discriminate.
Qed.

(** The speed factor of each probe of a full countdown from [n]. *)
Lemma machine_loop_speed wa (n : nat) : forall a p,
  In p (snd (mloop wa a (countdown n))) ->
  Machine.p_speed p
  = if (Machine.p_pixels p =? 2)
       || ((Machine.p_pixels p =? 1) && (2 <=? Z.of_nat n))
    then 1%float else a.
Proof.
  induction n as [|m IH]; intros a p.
  - simpl. tauto.
  - change (countdown (S m)) with (Z.of_nat (S m) :: countdown m).
    rewrite machine_loop_cons. cbv zeta.
    assert (Hhead : Machine.clamp_speed (Z.of_nat (S m)) a
                    = if (Z.of_nat (S m) =? 2)
                         || ((Z.of_nat (S m) =? 1) && (2 <=? Z.of_nat (S m)))
                      then 1%float else a).
    { unfold Machine.clamp_speed.
      destruct (Z.eqb_spec (Z.of_nat (S m)) 2) as [E2|N2]; [reflexivity|].
      destruct (Z.eqb_spec (Z.of_nat (S m)) 1) as [E1|N1]; cbn [orb andb];
        [|reflexivity].
      destruct (Z.leb_spec 2 (Z.of_nat (S m))); [lia | reflexivity]. }
    destruct (Machine.collide_check game _); cbn [snd In].
    + intros [<-|Hin]; [exact Hhead|].
      assert (Hk : 1 <= Machine.p_pixels p <= Z.of_nat m).
      { apply countdown_In.
        destruct (machine_loop_prefix wa (countdown m)
                    (Machine.clamp_speed (Z.of_nat (S m)) a))
          as [rest [E _]].
        rewrite E. apply in_or_app. left. now apply in_map. }
      rewrite (IH _ _ Hin). unfold Machine.clamp_speed.
      destruct (Z.eqb_spec (Machine.p_pixels p) 2) as [E2|N2];
        [reflexivity|].
      destruct (Z.eqb_spec (Machine.p_pixels p) 1) as [E1|N1];
        cbn [orb andb].
      * destruct (Z.leb_spec 2 (Z.of_nat m));
          destruct (Z.leb_spec 2 (Z.of_nat (S m))); try lia;
          try reflexivity.
        destruct (Z.eqb_spec (Z.of_nat (S m)) 2); [reflexivity | lia].
      * destruct (Z.eqb_spec (Z.of_nat (S m)) 2); [lia | reflexivity].
    + intros [<-|[]]. exact Hhead.
Qed.

End MachineLoop.

Section MachineCall.

Variable lfs : Machine.Walkabout -> Z * Z.
Variable self : Machine.HumanPlayer.
Variable game : Machine.Game.
Variable d : Direction.

Local Abbreviation wa0 := (Machine.set_direction d (Machine.walkabout self)).
Local Abbreviation elapsed :=
  (Machine.time_elapsed_milliseconds game / 1000)%float.
Local Abbreviation run :=
  (fun n => Machine.move_loop lfs game d wa0 elapsed (range_down n)).

Lemma machine_move_result :
  Machine.move lfs self game d
  = match Machine.iter_pixels self d with
    | inr e => (inr e, Machine.mkHumanPlayer wa0 (Machine.velocity self))
    | inl n =>
        match fst (run n) with
        | Some wa' =>
            (inl true, Machine.mkHumanPlayer wa' (Machine.velocity self))
        | None =>
            (inl false,
             Machine.mkHumanPlayer (Machine.set_action stand wa0)
                                   (Machine.velocity self))
        end
    end.
Proof.
  unfold Machine.move, Machine.move_trace.
  destruct (Machine.iter_pixels self d) as [n|e]; [|reflexivity].
  destruct (Machine.move_loop _ _ _ _ _ _) as [[wa'|] ps]; reflexivity.
Qed.

Lemma machine_probes_run (n : Z) :
  Machine.iter_pixels self d = inl n ->
  Machine.probes lfs self game d = snd (run n).
Proof.
  intros Hn. unfold Machine.probes, Machine.move_trace. rewrite Hn.
  destruct (Machine.move_loop _ _ _ _ _ _) as [[wa'|] ps]; reflexivity.
Qed.

Lemma machine_probes_raise (e : Machine.Raised) :
  Machine.iter_pixels self d = inr e -> Machine.probes lfs self game d = [].
Proof.
  intros He. unfold Machine.probes, Machine.move_trace. now rewrite He.
Qed.

Lemma machine_iter_pixels_pos (n : Z) :
  Machine.iter_pixels self d = inl n -> 1 <= n.
Proof.
  unfold Machine.iter_pixels.
  destruct (Machine.py_int _) as [v|e]; [|discriminate].
  intros [= <-]. lia.
Qed.

(** A call that returns a boolean got its step count, and returns true
    exactly when the loop committed. *)
Lemma machine_move_true_inv :
  fst (Machine.move lfs self game d) = inl true ->
  exists n wa',
    Machine.iter_pixels self d = inl n
    /\ fst (run n) = Some wa'
    /\ snd (Machine.move lfs self game d)
       = Machine.mkHumanPlayer wa' (Machine.velocity self).
Proof.
  rewrite machine_move_result.
  destruct (Machine.iter_pixels self d) as [n|e]; [|discriminate].
  destruct (fst (run n)) as [wa'|] eqn:Hrun; [|discriminate].
  intros _. exists n, wa'. auto.
Qed.

(** Each probe of a call, in closed form. *)
Lemma machine_probe_closed_form (n : Z) (p : Machine.Probe) :
  Machine.iter_pixels self d = inl n ->
  In p (Machine.probes lfs self game d) ->
  1 <= Machine.p_pixels p <= n
  /\ Machine.p_speed p = Machine.candidate_speed game n (Machine.p_pixels p)
  /\ Machine.p_destination p
     = Machine.pygame_Rect
         (Machine.candidate_topleft self game d n (Machine.p_pixels p))
         (Machine.size (Machine.walkabout self))
  /\ Machine.p_query p
     = Machine.candidate_query self game d n (Machine.p_pixels p).
Proof.
  intros Hn. rewrite (machine_probes_run n Hn). intros Hin.
  pose proof (machine_iter_pixels_pos n Hn) as Hpos.
  assert (Hrange : 1 <= Machine.p_pixels p <= n).
  { destruct (machine_loop_prefix lfs game d wa0 (range_down n) elapsed)
      as [rest [E _]].
    assert (Hk : In (Machine.p_pixels p) (range_down n))
      by (rewrite E; apply in_or_app; left; now apply in_map).
    unfold range_down in Hk. apply countdown_In in Hk. lia. }
  assert (Hspeed : Machine.p_speed p
                   = Machine.candidate_speed game n (Machine.p_pixels p)).
  { unfold range_down in Hin. apply machine_loop_speed in Hin.
    rewrite Z2Nat.id in Hin by lia. exact Hin. }
  destruct (machine_loop_probe_shape _ _ _ _ _ _ _ Hin) as [Hdest Hq].
  cbn [Machine.set_direction Machine.topleft_float Machine.size
       Machine.rect] in Hdest, Hq.
  unfold Machine.candidate_query, Machine.candidate_topleft.
  rewrite <- Hspeed, <- Hdest. repeat split; try lia; assumption.
Qed.

End MachineCall.

(** When no computation overflows, a tile between start and destination,
    in the lane, overlaps their union. *)
Lemma machine_between_collides_union (d : Direction)
      (start dest tile : Rect.t) :
  Machine.union_exact start dest -> Machine.edges_fit tile ->
  positive_rect start -> positive_rect dest -> positive_rect tile ->
  between_on_axis d start dest tile -> in_lane d start tile ->
  Machine.colliderect (Machine.union start dest) tile = true.
Proof.
  destruct start as [sx sy sw sh], dest as [dx dy dw dh],
           tile as [tx ty tw th].
  unfold Machine.union_exact, Machine.edges_fit, positive_rect,
    between_on_axis, in_lane, Rect.right, Rect.bottom.
  cbn [Rect.x Rect.y Rect.w Rect.h].
  intros [Hsr [Hdr [Hsb [Hdb [Huw Huh]]]]] [Htr Htb] [? ?] [? ?] [? ?] Hb Hl.
  unfold Machine.colliderect, Machine.union.
  cbn [Rect.x Rect.y Rect.w Rect.h].
  rewrite (wrap_fits _ Hsr), (wrap_fits _ Hdr), (wrap_fits _ Hsb),
    (wrap_fits _ Hdb), (wrap_fits _ Huw), (wrap_fits _ Huh),
    (wrap_fits _ Htr), (wrap_fits _ Htb).
  replace (Z.min sx dx + (Z.max (sx + sw) (dx + dw) - Z.min sx dx))
    with (Z.max (sx + sw) (dx + dw)) by lia.
  replace (Z.min sy dy + (Z.max (sy + sh) (dy + dh) - Z.min sy dy))
    with (Z.max (sy + sh) (dy + dh)) by lia.
  rewrite (wrap_fits (Z.max (sx + sw) (dx + dw)))
    by (unfold Machine.fits in *; lia).
  rewrite (wrap_fits (Z.max (sy + sh) (dy + dh)))
    by (unfold Machine.fits in *; lia).
  repeat match goal with
         | |- context [?a =? ?b] => destruct (Z.eqb_spec a b)
         end; cbn [orb]; try lia;
  repeat rewrite andb_true_iff;
  rewrite ?Z.ltb_lt, ?Z.gtb_gt;
  destruct d; lia.
Qed.

Lemma machine_grid_collide_check_In (grid : list (Rect.t * Z))
      (r tile : Rect.t) (flags : Z) :
  In (tile, flags) grid ->
  TileFlags.contains flags TileFlags.SOLID = true ->
  Machine.colliderect r tile = true ->
  Machine.grid_collide_check grid r = true.
Proof.
  intros Hin Hs Hc. unfold Machine.grid_collide_check. apply existsb_exists.
  exists (tile, flags). split; [exact Hin|]. cbn [fst snd].
  now rewrite Hs, Hc.
Qed.

(** C1 (as stated).  Near the largest C int the right edge of the
    destination rectangle wraps around inside [Rect.union], so the
    rectangle tested is the start rectangle alone: a 16-pixel actor at
    x = 2147483600 stepping 40 pixels east commits although a solid tile
    occupies [2147483620, 2147483630), between its start and its end. *)
Lemma move_tunnels_near_int_max :
  ~ Machine.no_tunnel Machine.Samples.frame_size
      (Machine.Samples.actor 2147483600 40)
      (Machine.Samples.scene 1000 Machine.Samples.edge_tile) east
      [(Machine.Samples.edge_tile, TileFlags.SOLID)].
Proof.
  intros H.
  assert (Hm : fst (Machine.move Machine.Samples.frame_size
                      (Machine.Samples.actor 2147483600 40)
                      (Machine.Samples.scene 1000 Machine.Samples.edge_tile)
                      east) = inl true)
    by (vm_compute; reflexivity).
  apply (H Hm Machine.Samples.edge_tile TileFlags.SOLID).
  - left. reflexivity.
  - reflexivity.
  - split; reflexivity.
  - vm_compute. repeat split; discriminate.
Qed.

(** C1 (amended).  Every collision query of [move] is [Rect.union] of the
    actor's current rectangle with the destination rectangle of the
    candidate being tried, and when [move] returns true that union, taken
    with the committed rectangle, is free of collision.  Over a grid of
    solid tiles, and as long as the computations of that union stay within
    the C [int] range, no solid tile then lies between the start and the
    committed rectangle in the actor's lane. *)
Theorem machine_move_queries_union (lfs : Machine.Walkabout -> Z * Z)
        (self : Machine.HumanPlayer) (game : Machine.Game) (d : Direction) :
  let start := Machine.rect (Machine.walkabout self) in
  let final :=
    Machine.rect (Machine.walkabout (snd (Machine.move lfs self game d))) in
  (forall p, In p (Machine.probes lfs self game d) ->
     Machine.p_destination p =
       Machine.pygame_Rect
         (Machine.new_topleft d
            (Machine.topleft_float (Machine.walkabout self))
            (Machine.p_pixels p) (Machine.p_speed p))
         (Machine.size (Machine.walkabout self))
     /\ Machine.p_query p = Machine.union start (Machine.p_destination p))
  /\ (fst (Machine.move lfs self game d) = inl true ->
      Machine.collide_check game (Machine.union start final) = false
      /\ forall grid,
           (forall r, Machine.collide_check game r
                      = Machine.grid_collide_check grid r) ->
           Machine.union_exact start final ->
           positive_rect start ->
           0 < fst (Machine.size (Machine.walkabout self)) ->
           0 < snd (Machine.size (Machine.walkabout self)) ->
           forall tile flags,
             In (tile, flags) grid ->
             TileFlags.contains flags TileFlags.SOLID = true ->
             positive_rect tile ->
             Machine.edges_fit tile ->
             ~ (between_on_axis d start final tile /\ in_lane d start tile)).
Proof.
  cbv zeta. split.
  - intros p Hp.
    destruct (Machine.iter_pixels self d) as [n|e] eqn:Hn.
    + rewrite (machine_probes_run lfs self game d n Hn) in Hp.
      apply machine_loop_probe_shape in Hp. exact Hp.
    + rewrite (machine_probes_raise lfs self game d e Hn) in Hp.
      destruct Hp.
  - intros Hm.
    destruct (machine_move_true_inv _ _ _ _ Hm) as [n [wa' [Hn [Hrun Hsnd]]]].
    rewrite Hsnd. cbn [Machine.walkabout].
    destruct (machine_loop_commit _ _ _ _ _ _ _ Hrun)
      as [blocked [p [E [_ [Hfree ->]]]]].
    cbn [Machine.rect].
    assert (Hin : In p (snd (Machine.move_loop lfs game d
                               (Machine.set_direction d
                                  (Machine.walkabout self))
                               (Machine.time_elapsed_milliseconds game
                                / 1000)%float (range_down n))))
      by (rewrite E; apply in_or_app; right; now left).
    destruct (machine_loop_probe_shape _ _ _ _ _ _ _ Hin) as [Hdest Hq].
    cbn [Machine.set_direction Machine.rect Machine.size
         Machine.topleft_float] in Hdest, Hq.
    assert (Hunion : Machine.collide_check game
                       (Machine.union (Machine.rect (Machine.walkabout self))
                                      (Machine.p_destination p)) = false)
      by (rewrite <- Hq; exact Hfree).
    split; [exact Hunion|].
    intros grid Hgrid Hexact Hstart Hw Hh tile flags Hcell Hsolid Htile Hfit
           [Hb Hl].
    rewrite Hgrid in Hunion.
    rewrite (machine_grid_collide_check_In grid _ tile flags Hcell Hsolid)
      in Hunion; [discriminate|].
    apply (machine_between_collides_union d); auto.
    rewrite Hdest. unfold positive_rect, Machine.pygame_Rect.
    cbn [Rect.w Rect.h]. split; assumption.
Qed.

Lemma machine_move_queries_union_witness :
  let start := Rect.mk 0 0 16 16 in
  let final := Rect.mk 40 0 16 16 in
  fst (Machine.move Machine.Samples.frame_size (Machine.Samples.actor 0 40)
         (Machine.Samples.scene 1000 Machine.Samples.far_tile) east)
  = inl true
  /\ Machine.collide_check
       (Machine.Samples.scene 1000 Machine.Samples.far_tile)
       (Machine.union start final) = false
  /\ forall tile flags,
       In (tile, flags) [(Machine.Samples.far_tile, TileFlags.SOLID)] ->
       TileFlags.contains flags TileFlags.SOLID = true ->
       positive_rect tile -> Machine.edges_fit tile ->
       ~ (between_on_axis east start final tile /\ in_lane east start tile).
Proof.
  cbv zeta.
  assert (Hm : fst (Machine.move Machine.Samples.frame_size
                      (Machine.Samples.actor 0 40)
                      (Machine.Samples.scene 1000 Machine.Samples.far_tile)
                      east) = inl true)
    by (vm_compute; reflexivity).
  destruct (machine_move_queries_union Machine.Samples.frame_size
              (Machine.Samples.actor 0 40)
              (Machine.Samples.scene 1000 Machine.Samples.far_tile) east)
    as [_ H].
  destruct (H Hm) as [Hfree Hgrid].
  split; [exact Hm|]. split; [exact Hfree|].
  intros tile flags Hin Hs Ht Hf.
  refine (Hgrid [(Machine.Samples.far_tile, TileFlags.SOLID)] _ _ _ _ _
                tile flags Hin Hs Ht Hf).
  - intros r. reflexivity.
  - vm_compute. repeat split; discriminate.
  - split; reflexivity.
  - reflexivity.
  - reflexivity.
Defined.



(** X3.  When the velocity along the axis is finite, [move] returns false
    exactly when every step from 1 to the step count has a colliding union
    rectangle, each step taken with the speed factor in force for it and
    computed as the program computes it. *)
Theorem machine_move_fails_iff_all_steps_blocked
        (lfs : Machine.Walkabout -> Z * Z) (self : Machine.HumanPlayer)
        (game : Machine.Game) (d : Direction) (n : Z) :
  Machine.iter_pixels self d = inl n ->
  (fst (Machine.move lfs self game d) = inl false
   <-> (forall k, 1 <= k <= n ->
          Machine.collide_check game
            (Machine.candidate_query self game d n k) = true)).
Proof.
  intros Hn. split.
  - intros Hm k Hk.
    assert (Hnone : fst (Machine.move_loop lfs game d
                           (Machine.set_direction d (Machine.walkabout self))
                           (Machine.time_elapsed_milliseconds game
                            / 1000)%float (range_down n)) = None).
    { rewrite machine_move_result, Hn in Hm.
      destruct (fst (Machine.move_loop _ _ _ _ _ _)); [discriminate Hm|].
      reflexivity. }
    destruct (machine_loop_prefix lfs game d
                (Machine.set_direction d (Machine.walkabout self))
                (range_down n)
                (Machine.time_elapsed_milliseconds game / 1000)%float)
      as [rest [E N]].
    rewrite (N Hnone), app_nil_r in E.
    assert (Hin : In k (range_down n)).
    { unfold range_down. apply countdown_In. lia. }
    rewrite E in Hin. apply in_map_iff in Hin. destruct Hin as [p [<- Hp]].
    assert (Hp' : In p (Machine.probes lfs self game d))
      by (rewrite (machine_probes_run lfs self game d n Hn); exact Hp).
    destruct (machine_probe_closed_form _ _ _ _ n p Hn Hp')
      as [_ [_ [_ Hq]]].
    rewrite <- Hq. eapply machine_loop_none_blocked; eassumption.
  - intros Hall.
    rewrite machine_move_result, Hn.
    destruct (fst (Machine.move_loop lfs game d
                     (Machine.set_direction d (Machine.walkabout self))
                     (Machine.time_elapsed_milliseconds game / 1000)%float
                     (range_down n))) as [wa'|] eqn:Hrun; [|reflexivity].
    exfalso.
    destruct (machine_loop_commit _ _ _ _ _ _ _ Hrun)
      as [blocked [p [E [_ [Hfree _]]]]].
    assert (Hp' : In p (Machine.probes lfs self game d)).
    { rewrite (machine_probes_run lfs self game d n Hn), E.
      apply in_or_app. right. now left. }
    destruct (machine_probe_closed_form _ _ _ _ n p Hn Hp')
      as [Hk [_ [_ Hq]]].
    rewrite Hq, (Hall _ Hk) in Hfree. discriminate Hfree.
Qed.

Lemma machine_move_fails_iff_all_steps_blocked_witness :
  fst (Machine.move Machine.Samples.frame_size (Machine.Samples.drifter 0)
         (Machine.Samples.scene 160 Machine.Samples.ahead_tile) east)
  = inl false
  /\ Machine.candidate_query (Machine.Samples.drifter 0)
       (Machine.Samples.scene 160 Machine.Samples.ahead_tile) east 1 1
     = Rect.mk 28 0 17 16.
Proof.
  split; [|vm_compute; reflexivity].
  apply (machine_move_fails_iff_all_steps_blocked Machine.Samples.frame_size
           (Machine.Samples.drifter 0)
           (Machine.Samples.scene 160 Machine.Samples.ahead_tile) east 1
           eq_refl).
  intros k Hk. assert (k = 1) as -> by lia. vm_compute. reflexivity.
Defined.

(** The first pass of the loop when the largest candidate is free. *)
Lemma machine_first_candidate_free (lfs : Machine.Walkabout -> Z * Z)
      (self : Machine.HumanPlayer) (game : Machine.Game) (d : Direction)
      (n : Z) :
  1 <= n ->
  Machine.collide_check game (Machine.candidate_query self game d n n)
  = false ->
  let wa := Machine.walkabout self in
  let dest := Machine.candidate_topleft self game d n n in
  Machine.move_loop lfs game d (Machine.set_direction d wa)
    (Machine.time_elapsed_milliseconds game / 1000)%float (range_down n)
  = (Some (Machine.mkWalkabout d walk dest
             (lfs (Machine.mkWalkabout d walk (Machine.topleft_float wa)
                     (Machine.size wa) (Machine.rect wa)))
             (Machine.pygame_Rect dest (Machine.size wa))),
     [Machine.mkProbe n (Machine.candidate_speed game n n)
        (Machine.pygame_Rect dest (Machine.size wa))
        (Machine.candidate_query self game d n n)]).
Proof.
  intros Hn Hfree. cbv zeta.
  rewrite (range_down_head n Hn), machine_loop_cons. cbv zeta.
  assert (Hs : Machine.clamp_speed n
                 (Machine.time_elapsed_milliseconds game / 1000)%float
               = Machine.candidate_speed game n n).
  { unfold Machine.clamp_speed, Machine.candidate_speed.
    destruct (Z.eqb_spec n 2) as [E2|N2]; [reflexivity|].
    destruct (Z.eqb_spec n 1) as [E1|N1]; cbn [orb andb]; [|reflexivity].
    rewrite E1. reflexivity. }
  rewrite Hs.
  cbn [Machine.set_direction Machine.topleft_float Machine.size
       Machine.rect Machine.direction].
  fold (Machine.candidate_topleft self game d n n).
  fold (Machine.candidate_query self game d n n).
  rewrite Hfree. reflexivity.
Qed.

(** X4.  When the union rectangle of the largest candidate is free, [move]
    makes that one collision query and commits the whole step: the actor
    faces [d], walks, sits at the position the program computes for that
    candidate with the rectangle built from its old size, and takes the
    largest frame size as its size. *)
Theorem machine_move_unobstructed_full_step
        (lfs : Machine.Walkabout -> Z * Z) (self : Machine.HumanPlayer)
        (game : Machine.Game) (d : Direction) (n : Z) :
  Machine.iter_pixels self d = inl n ->
  Machine.collide_check game (Machine.candidate_query self game d n n)
  = false ->
  let wa := Machine.walkabout self in
  let dest := Machine.candidate_topleft self game d n n in
  Machine.move lfs self game d
  = (inl true,
     Machine.mkHumanPlayer
       (Machine.mkWalkabout d walk dest
          (lfs (Machine.mkWalkabout d walk (Machine.topleft_float wa)
                  (Machine.size wa) (Machine.rect wa)))
          (Machine.pygame_Rect dest (Machine.size wa)))
       (Machine.velocity self))
  /\ map Machine.p_pixels (Machine.probes lfs self game d) = [n].
Proof.
  intros Hn Hfree. cbv zeta.
  pose proof (machine_first_candidate_free lfs self game d n
                (machine_iter_pixels_pos self d n Hn) Hfree) as Hrun.
  cbv zeta in Hrun. split.
  - rewrite machine_move_result, Hn, Hrun. reflexivity.
  - rewrite (machine_probes_run lfs self game d n Hn), Hrun. reflexivity.
Qed.

Lemma machine_move_unobstructed_full_step_witness :
  Machine.move Machine.Samples.frame_size (Machine.Samples.actor 0 25)
    (Machine.Samples.scene 1160 Machine.Samples.far_tile) east
  = (inl true,
     Machine.mkHumanPlayer
       (Machine.mkWalkabout east walk
          (0x1.cffffffffffffp+4%float, 0%float) (16, 16)
          (Rect.mk 28 0 16 16))
       (Machine.mkVelocity 25 0)).
Proof.
  exact (proj1 (machine_move_unobstructed_full_step
                  Machine.Samples.frame_size (Machine.Samples.actor 0 25)
                  (Machine.Samples.scene 1160 Machine.Samples.far_tile)
                  east 25 eq_refl eq_refl)).
Defined.

(** X5.  With a velocity along the axis whose integer part is zero or
    negative, the search still tries the step 1 with the elapsed-time
    factor: if that union rectangle is free, [move] returns true and the
    actor is moved by one times the elapsed seconds in the direction [d],
    in float arithmetic. *)
Theorem machine_move_without_velocity_still_steps
        (lfs : Machine.Walkabout -> Z * Z) (self : Machine.HumanPlayer)
        (game : Machine.Game) (d : Direction) (v : Z) :
  Machine.py_int (Machine.planned_movement_in_pixels self d) = inl v ->
  v <= 0 ->
  let elapsed := (Machine.time_elapsed_milliseconds game / 1000)%float in
  let dest :=
    Machine.new_topleft d (Machine.topleft_float (Machine.walkabout self))
                        1 elapsed in
  Machine.collide_check game
    (Machine.union (Machine.rect (Machine.walkabout self))
       (Machine.pygame_Rect dest (Machine.size (Machine.walkabout self))))
  = false ->
  fst (Machine.move lfs self game d) = inl true
  /\ Machine.topleft_float
       (Machine.walkabout (snd (Machine.move lfs self game d))) = dest.
Proof.
  intros Hv Hneg elapsed dest Hfree.
  assert (Hn : Machine.iter_pixels self d = inl 1).
  { unfold Machine.iter_pixels. rewrite Hv. f_equal. lia. }
  assert (Hq : Machine.collide_check game
                 (Machine.candidate_query self game d 1 1) = false)
    by exact Hfree.
  pose proof (machine_first_candidate_free lfs self game d 1
                ltac:(lia) Hq) as Hrun.
  cbv zeta in Hrun. rewrite machine_move_result, Hn, Hrun.
  split; reflexivity.
Qed.

Lemma machine_move_without_velocity_still_steps_witness :
  fst (Machine.move Machine.Samples.frame_size (Machine.Samples.drifter 0)
         (Machine.Samples.scene 160 Machine.Samples.far_tile) east)
  = inl true
  /\ Machine.topleft_float
       (Machine.walkabout
          (snd (Machine.move Machine.Samples.frame_size
                  (Machine.Samples.drifter 0)
                  (Machine.Samples.scene 160 Machine.Samples.far_tile)
                  east)))
     = (29%float, 0%float).
Proof.
  exact (machine_move_without_velocity_still_steps
           Machine.Samples.frame_size (Machine.Samples.drifter 0)
           (Machine.Samples.scene 160 Machine.Samples.far_tile) east 0
           eq_refl ltac:(discriminate) eq_refl).
Defined.

(** X7.  After a call that returned true the rectangle holds the C ints
    that [pygame.Rect] makes of the float position (the truncation, or
    [INT_MIN] when that does not fit); and a call made with rectangle and
    float position in that relation leaves them in it, whatever it returns
    or raises. *)
Theorem machine_move_keeps_rect_in_step
        (lfs : Machine.Walkabout -> Z * Z) (self : Machine.HumanPlayer)
        (game : Machine.Game) (d : Direction) :
  let after := Machine.walkabout (snd (Machine.move lfs self game d)) in
  (fst (Machine.move lfs self game d) = inl true ->
   Machine.position_synced after)
  /\ (Machine.position_synced (Machine.walkabout self) ->
      Machine.position_synced after).
Proof.
  cbv zeta. rewrite machine_move_result.
  destruct (Machine.iter_pixels self d) as [n|e] eqn:Hn.
  - destruct (fst (Machine.move_loop lfs game d
                     (Machine.set_direction d (Machine.walkabout self))
                     (Machine.time_elapsed_milliseconds game / 1000)%float
                     (range_down n))) as [wa'|] eqn:Hrun.
    + destruct (machine_loop_commit _ _ _ _ _ _ _ Hrun)
        as [blocked [p [E [_ [_ ->]]]]].
      assert (Hin : In p (snd (Machine.move_loop lfs game d
                                 (Machine.set_direction d
                                    (Machine.walkabout self))
                                 (Machine.time_elapsed_milliseconds game
                                  / 1000)%float (range_down n))))
        by (rewrite E; apply in_or_app; right; now left).
      destruct (machine_loop_probe_shape _ _ _ _ _ _ _ Hin) as [Hdest _].
      assert (Hs : Machine.position_synced
                     (Machine.mkWalkabout
                        (Machine.direction
                           (Machine.set_direction d (Machine.walkabout self)))
                        walk
                        (Machine.new_topleft d
                           (Machine.topleft_float
                              (Machine.set_direction d
                                 (Machine.walkabout self)))
                           (Machine.p_pixels p) (Machine.p_speed p))
                        (lfs (Machine.set_action walk
                                (Machine.set_direction d
                                   (Machine.walkabout self))))
                        (Machine.p_destination p))).
      { unfold Machine.position_synced.
        cbn [Machine.rect Machine.topleft_float]. rewrite Hdest.
        split; reflexivity. }
      cbn [fst snd Machine.walkabout]. split; intros _; exact Hs.
    + cbn [fst snd Machine.walkabout]. split; [discriminate|].
      intros H. exact H.
  - cbn [fst snd Machine.walkabout]. split; [discriminate|].
    intros H. exact H.
Qed.

Lemma machine_move_keeps_rect_in_step_witness :
  let after :=
    Machine.walkabout
      (snd (Machine.move Machine.Samples.frame_size
              (Machine.Samples.actor 2147483646 5)
              (Machine.Samples.scene 1000 Machine.Samples.far_tile) east)) in
  Machine.position_synced after
  /\ Machine.topleft_float after = (2147483651%float, 0%float)
  /\ Rect.x (Machine.rect after) = Machine.INT_MIN.
Proof.
  cbv zeta. split; [|split; vm_compute; reflexivity].
  apply (proj1 (machine_move_keeps_rect_in_step Machine.Samples.frame_size
                  (Machine.Samples.actor 2147483646 5)
                  (Machine.Samples.scene 1000 Machine.Samples.far_tile)
                  east)).
  vm_compute. reflexivity.
Defined.

(** * The frame loop with everything that can be raised *)

Section RunFacts.

Variable Scene : Type.
Variable Event : Type.
Variable Err : Type.
Variable IndexError : Err.
Variable is_Exception : Err -> bool.
Variable is_TracebackScene : Scene -> bool.
Variable TracebackScene : GameLoop.t Scene -> Err -> Scene + Err.
Variable scene_update :
  Scene -> GameLoop.t Scene -> GameLoop.t Scene * option Err.
Variable scene_handle_event :
  Scene -> Event -> GameLoop.t Scene -> GameLoop.t Scene * option Err.
Variable is_QUIT : Event -> bool.

Local Abbreviation game := (GameLoop.t Scene).
Local Abbreviation stack := (GameLoop.scene_stack Scene).
Local Abbreviation running := (GameLoop.running Scene).
Local Abbreviation current := (GameLoop.current Scene).
Local Abbreviation on_raise :=
  (GameRun.on_raise Scene Err IndexError is_Exception is_TracebackScene
                    TracebackScene).
Local Abbreviation escapes :=
  (GameRun.escapes Scene Err IndexError is_Exception is_TracebackScene
                   TracebackScene).
Local Abbreviation update_current_scene :=
  (GameRun.update_current_scene Scene Err IndexError is_Exception
     is_TracebackScene TracebackScene scene_update).
Local Abbreviation handle_events :=
  (GameRun.handle_events Scene Event Err IndexError is_Exception
     is_TracebackScene TracebackScene scene_handle_event is_QUIT).

(** The two ways out of the [except] clause. *)
Lemma on_raise_cases (g : game) (ex : Err) :
  (exists top tb,
     is_Exception ex = true
     /\ current g = Some top
     /\ is_TracebackScene top = false
     /\ TracebackScene g ex = inl tb
     /\ on_raise g ex
        = (GameLoop.mk Scene (running g) (stack g ++ [tb]), None))
  \/ (exists ex', on_raise g ex = (g, Some ex') /\ escapes g ex').
Proof.
  unfold GameRun.on_raise, GameRun.escapes, GameRun.scene_push.
  destruct (is_Exception ex) eqn:Hex.
  - destruct (current g) as [top|] eqn:Hc.
    + destruct (is_TracebackScene top) eqn:Ht.
      * right. exists ex. split; [reflexivity|].
        right. right. left. exists top. auto.
      * destruct (TracebackScene g ex) as [tb|ex'] eqn:Htb.
        -- left. exists top, tb. auto.
        -- right. exists ex'. split; [reflexivity|].
           right. right. right. exists top, ex. auto.
    + right. exists IndexError. split; [reflexivity|]. right. left. auto.
  - right. exists ex. split; [reflexivity|]. left. exact Hex.
Qed.

(** X22.  An exception raised while updating the current scene leaves
    [run] only if it is no instance of [Exception], or no scene is stacked
    at that moment ([IndexError]), or the current scene is then a traceback
    scene, or the constructor of the traceback scene raises.  Otherwise,
    and only then, the frame is cut short: the traceback scene built for
    that very exception is appended to the stack as the failed update left
    it, [running] unchanged. *)
Theorem update_exception_contained (g : game) :
  (forall g' ex,
     update_current_scene g = GameLoop.Abort Scene Err g' ex ->
     escapes g' ex)
  /\ (forall g',
        update_current_scene g = GameLoop.NextFrame Scene Err g' <->
        exists scene g1 ex top tb,
          current g = Some scene
          /\ scene_update scene g = (g1, Some ex)
          /\ is_Exception ex = true
          /\ current g1 = Some top
          /\ is_TracebackScene top = false
          /\ TracebackScene g1 ex = inl tb
          /\ g' = GameLoop.mk Scene (running g1) (stack g1 ++ [tb])).
Proof.
  unfold GameRun.update_current_scene.
  destruct (current g) as [scene|] eqn:Hc.
  - destruct (scene_update scene g) as [g1 [ex|]] eqn:Hup.
    + destruct (on_raise_cases g1 ex)
        as [[top [tb [Hex [Hc1 [Ht [Htb Hon]]]]]]|[ex' [Hon Hesc]]];
        rewrite Hon.
      * split; [intros g' e H; discriminate H|].
        intros g'. split.
        -- intros [= <-]. exists scene, g1, ex, top, tb. auto 10.
        -- intros [scene' [g1' [ex0 [top' [tb' H]]]]].
           destruct H as [Hs [Hu [_ [_ [_ [Htb' ->]]]]]].
           injection Hs as <-. rewrite Hup in Hu. injection Hu as <- <-.
           rewrite Htb in Htb'. injection Htb' as <-. reflexivity.
      * split; [intros g' e [= <- <-]; exact Hesc|].
        intros g'. split; [intros H; discriminate H|].
        intros [scene' [g1' [ex0 [top' [tb' H]]]]].
        destruct H as [Hs [Hu [Hex0 [Hc1 [Ht [Htb _]]]]]].
        injection Hs as <-. rewrite Hup in Hu. injection Hu as <- <-.
        exfalso. revert Hon.
        unfold GameRun.on_raise, GameRun.scene_push.
        rewrite Hex0, Hc1, Ht, Htb. discriminate.
    + split; [intros g' e H; discriminate H|].
      intros g'. split; [intros H; discriminate H|].
      intros [scene' [g1' [ex0 [top' [tb' [Hs [Hu _]]]]]]].
      injection Hs as <-. rewrite Hup in Hu. discriminate Hu.
  - destruct (on_raise_cases g IndexError)
      as [[top [tb [_ [Hc1 _]]]]|[ex' [Hon Hesc]]];
      [rewrite Hc in Hc1; discriminate Hc1|].
    rewrite Hon.
    split; [intros g' e [= <- <-]; exact Hesc|].
    intros g'. split; [intros H; discriminate H|].
    intros [scene' [g1' [ex0 [top' [tb' [Hs _]]]]]]. discriminate Hs.
Qed.

(** X23.  Whatever the handlers do, a value raised while handling the
    events of a frame leaves the event loop only for one of the same four
    reasons: it is no instance of [Exception], no scene is stacked, a
    traceback scene is the current one, or the constructor of the
    traceback scene raised it. *)
Theorem handle_events_escape (events : list Event) :
  forall (g g' : game) (ex : Err),
    handle_events events g = (g', Some ex) -> escapes g' ex.
Proof.
  induction events as [|ev rest IH]; intros g g' ex.
  - cbn. discriminate.
  - cbn [GameRun.handle_events].
    set (g0 := if is_QUIT ev
               then GameLoop.mk Scene false (stack g) else g).
    destruct (match current g0 with
              | Some scene => scene_handle_event scene ev g0
              | None => (g0, Some IndexError)
              end) as [g1 [e1|]] eqn:Hrun.
    + destruct (on_raise_cases g1 e1)
        as [[top [tb [_ [_ [_ [_ Hon]]]]]]|[ex' [Hon Hesc]]]; rewrite Hon.
      * apply IH.
      * intros [= <- <-]. exact Hesc.
    + apply IH.
Qed.

End RunFacts.

Lemma update_exception_contained_witness :
  GameRun.update_current_scene _ _ 0%nat GameRun.Toy.is_Exception
    GameRun.Toy.is_TracebackScene GameRun.Toy.TracebackScene
    GameRun.Toy.scene_update GameRun.Toy.failing
  = GameLoop.NextFrame _ _
      (GameLoop.mk _ true
         [GameRun.Toy.tilemap; GameRun.Toy.faulty; GameRun.Toy.traceback 7])
  /\ GameRun.escapes _ _ 0%nat GameRun.Toy.is_Exception
       GameRun.Toy.is_TracebackScene GameRun.Toy.TracebackScene
       GameRun.Toy.leaving 99%nat.
Proof.
  split.
  - apply (proj2 (update_exception_contained GameRun.Toy.scene nat 0%nat
                    GameRun.Toy.is_Exception GameRun.Toy.is_TracebackScene
                    GameRun.Toy.TracebackScene GameRun.Toy.scene_update
                    GameRun.Toy.failing)).
    exists GameRun.Toy.faulty, GameRun.Toy.failing, 7%nat,
      GameRun.Toy.faulty, (GameRun.Toy.traceback 7).
    repeat split.
  - apply (proj1 (update_exception_contained GameRun.Toy.scene nat 0%nat
                    GameRun.Toy.is_Exception GameRun.Toy.is_TracebackScene
                    GameRun.Toy.TracebackScene GameRun.Toy.scene_update
                    GameRun.Toy.leaving)).
    reflexivity.
Defined.

Lemma handle_events_escape_witness :
  GameLoop.current _ GameRun.Toy.leaving = Some GameRun.Toy.quitting
  /\ GameRun.Toy.is_TracebackScene GameRun.Toy.quitting = false
  /\ GameRun.escapes _ _ 0%nat GameRun.Toy.is_Exception
       GameRun.Toy.is_TracebackScene GameRun.Toy.TracebackScene
       GameRun.Toy.leaving 99%nat.
Proof.
  split; [reflexivity|]. split; [reflexivity|].
  exact (handle_events_escape GameRun.Toy.scene bool nat 0%nat
           GameRun.Toy.is_Exception GameRun.Toy.is_TracebackScene
           GameRun.Toy.TracebackScene GameRun.Toy.scene_handle_event
           GameRun.Toy.is_QUIT [false; true] GameRun.Toy.leaving
           GameRun.Toy.leaving 99%nat eq_refl).
Defined.

(** * The tile constructor *)

(** X16.  For metadata whose animation entry, when there is one, is a list
    of (tile id, duration) pairs: with the ANIMATED flag and no animation
    entry the constructor raises [KeyError]; and every tile it returns has
    the given tilesheet, id and flags, a blank image of the tilesheet's
    tile size with the bounding box of that image, a sprite when it is
    animated and none otherwise, so that it is well formed for [update].
    An empty animation, for which the sprite class may refuse to build, is
    left aside. *)
Theorem new_Tile_builds {env : Collaborators} (ts : Tilesheet)
        (id flags : Z) (metadata : option (list (Z * Q))) :
  (TileFlags.contains flags TileFlags.ANIMATED = true ->
   metadata = None -> new_Tile ts id flags metadata = inr KeyError)
  /\ (metadata <> Some [] ->
      forall t, new_Tile ts id flags metadata = inl t ->
        tilesheet t = ts /\ tile_id t = id /\ tile_flags t = flags
        /\ tile_metadata t = metadata
        /\ image t = pygame_Surface (tile_width ts, tile_height ts)
        /\ well_formed t
        /\ (is_animated t = true ->
            exists animation,
              metadata = Some animation
              /\ animatedsprite t
                 = Some (new_AnimatedSprite (build_frames ts 0 animation)))
        /\ (is_animated t = false -> animatedsprite t = None)).
Proof.
  unfold new_Tile, well_formed, is_animated. cbn [tile_flags].
  destruct (TileFlags.contains flags TileFlags.ANIMATED) eqn:Ha.
  - destruct metadata as [animation|].
    + split; [intros _ H; discriminate H|].
      intros _ t [= <-].
      cbn [tilesheet tile_id tile_flags tile_metadata image tile_rect
           animatedsprite]. rewrite Ha.
      repeat split; intros; try congruence. exists animation. auto.
    + split; [reflexivity|]. intros _ t H. discriminate H.
  - split; [intros H; discriminate H|].
    intros _ t [= <-].
    cbn [tilesheet tile_id tile_flags tile_metadata image tile_rect
         animatedsprite]. rewrite Ha.
    repeat split; intros; congruence.
Qed.

Lemma new_Tile_builds_witness :
  @new_Tile toy_env tt 7 TileFlags.ANIMATED None = inr KeyError
  /\ well_formed Tiles.water
  /\ animatedsprite Tiles.water = Some Tiles.water_sprite.
Proof.
  destruct (@new_Tile_builds toy_env tt 7 TileFlags.ANIMATED None)
    as [Herr _].
  destruct (@new_Tile_builds toy_env tt 7 TileFlags.ANIMATED
              (Some [(7, 100%Q); (8, 100%Q)])) as [_ Hok].
  split; [apply Herr; reflexivity|].
  destruct (Hok ltac:(discriminate) Tiles.water eq_refl)
    as [_ [_ [_ [_ [_ [Hwf [Hsp _]]]]]]].
  split; [exact Hwf|].
  destruct (Hsp eq_refl) as [animation [[= <-] Hs]]. exact Hs.
Defined.
